(** * demetsiiify: the job-status, live-stream, import and image endpoints

    A shallow embedding of [demetsiiify/blueprints.py] and of the worker's
    exception handler in [demetsiiify/__init__.py], with the properties
    of the HTTP API that the design document states about them.

    Conventions of the embedding:
    - a Python [str] is a [string], one [ascii] per character (inputs are
      restricted to code points below 256);
    - a Python [dict] with string keys is a [gmap string Val]; equality of
      such maps is Python's [==] on dicts (same keys, equal values);
    - Python's [None] where a string or a dict is expected is [option]'s
      [None];
    - a function that can raise returns an [Outcome]; Flask's [abort(c)]
      raises [HTTPException c], as it does in werkzeug;
    - everything reached through an import that is not part of these two
      files (Redis/RQ, requests, lxml, the METS reader, the database
      models, mimetypes, Flask's URL building) is a field of [Externals]. *)

From Stdlib Require Import ZArith Ascii String List Lia Bool.
From stdpp Require Import gmap strings list fin_maps option.

Set Warnings "-register-all".
Local Open Scope string_scope.
Local Open Scope Z_scope.

(** ** Python values *)

(** The values that travel through job metadata and JSON bodies. *)
Inductive Val : Type :=
  | VNone
  | VStr (s : string)
  | VInt (z : Z)
  | VDict (m : gmap string Val).

#[global] Instance Val_eq_dec : EqDecision Val.
Proof.
  refine (fix go (a b : Val) {struct a} : Decision (a = b) :=
    let _ : EqDecision Val := @go in
    match a, b with
    | VNone, VNone => left _
    | VStr s, VStr t => cast_if (decide (s = t))
    | VInt x, VInt y => cast_if (decide (x = y))
    | VDict m, VDict n => cast_if (decide (m = n))
    | _, _ => right _
    end); abstract congruence.
Defined.

(** A Python dict with string keys. *)
Abbreviation Dict := (gmap string Val).

(** [d.update(other)]: the entries of [other] win. *)
Definition dict_update (d other : Dict) : Dict := other ∪ d.

(** Python truthiness of a value that is a dict or [None]. *)
Definition truthy_dict (d : option Dict) : bool :=
  match d with
  | None => false
  | Some m => negb (bool_decide (m = ∅))
  end.

(** ** Exceptions and outcomes *)

Inductive PyExc : Type :=
  | TypeError
  | KeyError
  | IndexError
  | ValueError
  | AttributeError
  | MissingSchema
  | HTTPException (code : Z)
  | OtherError (name : string).

#[global] Instance PyExc_eq_dec : EqDecision PyExc.
Proof. solve_decision. Defined.

Inductive Outcome (A : Type) : Type :=
  | Return (a : A)
  | Raise (e : PyExc).
Arguments Return {A} a.
Arguments Raise {A} e.

#[global] Instance Outcome_ret : MRet Outcome := fun _ a => Return a.
#[global] Instance Outcome_bind : MBind Outcome := fun _ _ f m =>
  match m with
  | Return a => f a
  | Raise e => Raise e
  end.

(** [abort(code)] *)
Definition abort {A} (code : Z) : Outcome A := Raise (HTTPException code).

(** ** Strings *)

Definition newline : ascii := ascii_of_nat 10.

(** [s.startswith(p)] *)
Definition startswith (p s : string) : bool := String.prefix p s.

(** [s.endswith(suf)] *)
Fixpoint endswith (suf s : string) : bool :=
  if String.eqb s suf then true
  else match s with
       | EmptyString => false
       | String _ s' => endswith suf s'
       end.

(** [s.split(sep)] for a one-character separator: never the empty list. *)
Fixpoint split (sep : ascii) (s : string) : list string :=
  match s with
  | EmptyString => [EmptyString]
  | String c s' =>
      if Ascii.eqb c sep then EmptyString :: split sep s'
      else match split sep s' with
           | p :: ps => String c p :: ps
           | [] => [String c EmptyString]
           end
  end.

(** The remainder of [s] after the literal [p], when [s] starts with it. *)
Fixpoint strip_prefix (p s : string) : option string :=
  match p, s with
  | EmptyString, _ => Some s
  | String a p', String b s' =>
      if Ascii.eqb a b then strip_prefix p' s' else None
  | String _ _, EmptyString => None
  end.

(** The longest prefix of [s] whose characters all satisfy [f]. *)
Fixpoint take_while (f : ascii -> bool) (s : string) : string :=
  match s with
  | EmptyString => EmptyString
  | String c s' => if f c then String c (take_while f s') else EmptyString
  end.

(** ** [int(str)] *)

(** The characters [int] skips at both ends of its argument. *)
Definition is_space (c : ascii) : bool :=
  let n := nat_of_ascii c in
  ((9 <=? n) && (n <=? 13) || (n =? 32) || (n =? 133) || (n =? 160))%nat.

Definition digit_val (c : ascii) : option Z :=
  let n := nat_of_ascii c in
  if ((48 <=? n) && (n <=? 57))%nat then Some (Z.of_nat n - 48) else None.

Fixpoint lstrip (s : string) : string :=
  match s with
  | EmptyString => EmptyString
  | String c s' => if is_space c then lstrip s' else s
  end.

Fixpoint rstrip (s : string) : string :=
  match s with
  | EmptyString => EmptyString
  | String c s' =>
      match rstrip s' with
      | EmptyString => if is_space c then EmptyString else String c EmptyString
      | r => String c r
      end
  end.

(** Where the digit scanner stands: nothing read yet, after a digit, or
    after an underscore (allowed only between two digits). *)
Inductive DigitPos := AtStart | AfterDigit | AfterUnderscore.

Fixpoint scan_digits (pos : DigitPos) (acc : Z) (s : string) : option Z :=
  match s with
  | EmptyString =>
      match pos with
      | AfterDigit => Some acc
      | _ => None
      end
  | String c s' =>
      match digit_val c with
      | Some d => scan_digits AfterDigit (10 * acc + d) s'
      | None =>
          if Ascii.eqb c "_"
          then match pos with
               | AfterDigit => scan_digits AfterUnderscore acc s'
               | _ => None
               end
          else None
      end
  end.

(** [int(s)] in base ten: surrounding white space, an optional sign, then
    digits; anything else is a [ValueError]. *)
Definition py_int (s : string) : Outcome Z :=
  let body := rstrip (lstrip s) in
  let '(neg, digits) :=
    match body with
    | String "-" r => (true, r)
    | String "+" r => (false, r)
    | _ => (false, body)
    end in
  match scan_digits AtStart 0 digits with
  | Some n => Return (if neg then - n else n)
  | None => Raise ValueError
  end.

(** ** HTTP responses and Flask's dispatch *)

Inductive Body : Type :=
  | Json (v : Val)
  | Html.

Record Response := {
  resp_status : Z;
  resp_body : Body;
  resp_headers : gmap string string
}.

(** [jsonify(v)] *)
Definition jsonify (v : Val) : Response :=
  {| resp_status := 200; resp_body := Json v; resp_headers := ∅ |}.

Definition with_status (code : Z) (r : Response) : Response :=
  {| resp_status := code; resp_body := resp_body r;
     resp_headers := resp_headers r |}.

Definition with_header (k v : string) (r : Response) : Response :=
  {| resp_status := resp_status r; resp_body := resp_body r;
     resp_headers := <[k := v]> (resp_headers r) |}.

(** [redirect(url, code)] *)
Definition redirect (url : string) (code : Z) : Response :=
  {| resp_status := code; resp_body := Html;
     resp_headers := {[ "Location" := url ]} |}.

(** What Flask sends for a view: the response it returned; the error page
    of an [HTTPException]; for any other exception the blueprint's
    [errorhandler(Exception)] when it has one, and a plain 500 otherwise.
    (A handler registered for [Exception] is not consulted for an
    [HTTPException]: that is Flask's lookup by status code.) *)
Definition dispatch (handler : option (PyExc -> Response))
    (o : Outcome Response) : Response :=
  match o with
  | Return r => r
  | Raise (HTTPException c) =>
      {| resp_status := c; resp_body := Html; resp_headers := ∅ |}
  | Raise e =>
      match handler with
      | Some h => h e
      | None => {| resp_status := 500; resp_body := Html; resp_headers := ∅ |}
      end
  end.

(** The [cors] decorator: the header is added to what the view returns;
    an exception passes through untouched. *)
Definition cors (origin : string) (o : Outcome Response) : Outcome Response :=
  resp ← o; mret (with_header "Access-Control-Allow-Origin" origin resp).

(** ** The job queue (RQ over Redis) *)

(** The stored fields of a job. *)
Record JobHash := {
  h_status : string;
  h_meta : Dict;
  h_exc_info : Val;
  h_result : Val;
  h_args : list Val
}.

(** A job object: its id and the fields read from the store. *)
Record Job := {
  job_id : string;
  job_hash : JobHash
}.

Definition get_status (j : Job) : string := h_status (job_hash j).
Definition job_meta (j : Job) : Dict := h_meta (job_hash j).
Definition job_exc_info (j : Job) : Val := h_exc_info (job_hash j).
Definition job_result (j : Job) : Val := h_result (job_hash j).

(** A queue: the jobs it can fetch by id, and its ordered list of ids. *)
Record Queue := {
  q_jobs : gmap string JobHash;
  q_job_ids : list string
}.

(** The two module-level queues of [tasks]. *)
Record RQ := {
  queue : Queue;
  failed_queue : Queue
}.

(** The raised exception as the worker hands it to a handler:
    [exc_module] is [None] when [exc_value.__module__] is missing. *)
Record ExcValue := {
  exc_module : option string;
  exc_class_name : string;
  exc_args : list Val
}.

(** A parsed METS document, as far as [_get_basic_info] reads it. *)
Record MetsDocument := {
  doc_metadata : Dict;
  doc_jpeg : list string;
  doc_jpg : list string
}.

(** A row of the image table. *)
Record IIIFImage := {
  image_id : string;
  image_info : Val
}.

(** ** What the two files import *)

Record Externals := {
  (** [urllib.parse.unquote] *)
  unquote : string -> string;
  (** [requests.head] on a URL string: the status code of the answer, or
      the exception raised *)
  http_head : string -> Outcome Z;
  (** [ET.parse], [mets.MetsDocument] and [read_metadata], with the two
      XPath queries for JPEG files evaluated *)
  read_mets : string -> Outcome MetsDocument;
  (** [iiif.make_label] *)
  make_label : Dict -> Val;
  (** the id RQ gives the next job *)
  new_job_id : RQ -> string;
  (** what RQ's [fetch_job] does when it is handed [None] instead of an
      id: [None] when it answers [None], the exception when it raises *)
  fetch_job_none : option PyExc;
  (** scheme and host that [url_for(..., _external=True)] puts in front *)
  url_root : string;
  (** [mimetypes.types_map] *)
  types_map : string -> option string;
  (** [IIIFImage.get_image_url], called with the query as keyword
      arguments *)
  get_image_url : IIIFImage -> Dict -> option string;
  (** [traceback.format_exc()] *)
  format_exc : PyExc -> string
}.

(** The value of a Python variable that holds a job id, a job, or [None]. *)
Inductive JobVar : Type :=
  | PStr (s : string)
  | PJob (j : Job)
  | PNone.

Definition is_str (v : JobVar) : bool :=
  match v with PStr _ => true | _ => false end.
Definition is_None (v : JobVar) : bool :=
  match v with PNone => true | _ => false end.

(** [list.index] guarded by [in]: the first position of [x], if any. *)
Fixpoint list_index (x : string) (l : list string) : option nat :=
  match l with
  | [] => None
  | y :: l' => if decide (x = y) then Some O else S <$> list_index x l'
  end.

Section Program.

Context (E : Externals).

(** [Queue.fetch_job(job_id)] *)
Definition fetch_job (q : Queue) (job_id : JobVar) : Outcome JobVar :=
  match job_id with
  | PStr s =>
      match q_jobs q !! s with
      | Some h => Return (PJob {| job_id := s; job_hash := h |})
      | None => Return PNone
      end
  | PNone =>
      match fetch_job_none E with
      | None => Return PNone
      | Some e => Raise e
      end
  | PJob _ => Raise TypeError
  end.

(** [Queue.get_job_ids()] *)
Definition get_job_ids (q : Queue) : list string := q_job_ids q.

(** ** [_get_job_status] *)

(** The [return None] belongs to the block for a string argument: its
    outcome is the [None] of the first [match] below. An argument that is
    neither a string nor a job has no [get_status]. *)

Definition _get_job_status (w : RQ) (job : JobVar) : Outcome (option Dict) :=
  job ← (if is_str job then
           job ← fetch_job (queue w) job;
           job ← (if is_None job then fetch_job (failed_queue w) job
                  else mret job);
           mret (if is_None job then None else Some job)
         else mret (Some job));
  match job with
  | None => mret None
  | Some PNone => Raise AttributeError
  | Some (PStr _) => Raise AttributeError
  | Some (PJob job) =>
      let status := get_status job in
      let out : Dict :=
        {[ "id" := VStr (job_id job); "status" := VStr status ]} in
      let out :=
        if bool_decide (status ≠ "failed") then dict_update out (job_meta job)
        else out in
      let out :=
        if bool_decide (status = "failed")
        then <[ "traceback" := job_exc_info job ]> out
        else if bool_decide (status = "queued")
        then
          let job_ids := get_job_ids (queue w) in
          <[ "position" :=
               match list_index (job_id job) job_ids with
               | Some i => VInt (Z.of_nat i)
               | None => VNone
               end ]> out
        else if bool_decide (status = "finished")
        then <[ "result" := job_result job ]> out
        else out in
      mret (Some out)
  end.

Definition status_val (s : option Dict) : Val :=
  match s with
  | Some d => VDict d
  | None => VNone
  end.

(** ** [handle_error], the [api] blueprint's handler for [Exception] *)

Definition handle_error (error : PyExc) : Response :=
  with_status 500 (jsonify (VDict {[ "traceback" := VStr (format_exc E error) ]})).

Definition serve_api : Outcome Response -> Response :=
  dispatch (Some handle_error).

(** The [iiif] blueprint registers no error handler. *)
Definition serve_iiif : Outcome Response -> Response :=
  dispatch None.

(** ** [api_task_status] *)

Definition api_task_status (w : RQ) (task_id : string) : Outcome Response :=
  status ← _get_job_status w (PStr task_id);
  if truthy_dict status then mret (jsonify (status_val status))
  else abort 404.

(** ** [_exception_handler] of the worker *)

(** [job.meta] is replaced and the job saved; the saved job is returned.
    The handler's other two arguments, the exception's class and the
    traceback object, are not used by it. *)
Definition _exception_handler (job : Job) (exc_value : ExcValue) : Outcome Job :=
  let typename :=
    match exc_module exc_value with
    | Some m => m +:+ "." +:+ exc_class_name exc_value
    | None => exc_class_name exc_value
    end in
  message ← match exc_args exc_value with
            | a :: _ => mret a
            | [] => Raise IndexError
            end;
  let meta : Dict := {[ "type" := VStr typename; "message" := message ]} in
  mret {| job_id := job_id job;
          job_hash := {| h_status := h_status (job_hash job);
                         h_meta := meta;
                         h_exc_info := h_exc_info (job_hash job);
                         h_result := h_result (job_hash job);
                         h_args := h_args (job_hash job) |} |}.

(** ** The live stream: [sse_stream] and its generator [gen] *)

(** The event the generator yields: [ServerSentEvent(status)] holds the
    status, which [encode] writes out as one [data:] line of JSON. *)
Record ServerSentEvent := {
  sse_data : option Dict
}.

(** A message of [pubsub.listen()]: its channel, and the queues as they
    are when the loop body runs for it. *)
Record Msg := {
  msg_channel : string;
  msg_rq : RQ
}.

(** The generator's local variables. *)
Record GenState := {
  last_status : option Dict;
  last_id : option string
}.

Definition gen_init : GenState :=
  {| last_status := None; last_id := None |}.

(** [msg['channel'].decode('utf8').split(':')[-1]] *)
Definition channel_id (channel : string) : string :=
  List.last (split ":" channel) EmptyString.

(** One turn of the [for] loop. *)
Inductive Turn : Type :=
  | Continue (st : GenState)
  | Yield (ev : ServerSentEvent) (st : GenState)
  | Raised (e : PyExc).

(** [last_status['status'] != 'started'] *)
Definition not_started (last : option Dict) : Outcome bool :=
  match last with
  | None => Raise TypeError
  | Some d =>
      match d !! "status" with
      | None => Raise KeyError
      | Some v => mret (bool_decide (v ≠ VStr "started"))
      end
  end.

Definition gen_turn (task_id : string) (st : GenState) (msg : Msg) : Turn :=
  let cur_id := channel_id (msg_channel msg) in
  let skip : Outcome bool :=
    if bool_decide (Some cur_id = last_id st) then not_started (last_status st)
    else mret false in
  match skip with
  | Raise e => Raised e
  | Return true => Continue st
  | Return false =>
      let st := {| last_status := last_status st; last_id := Some cur_id |} in
      match _get_job_status (msg_rq msg) (PStr task_id) with
      | Raise e => Raised e
      | Return status =>
          if bool_decide (status = last_status st) then Continue st
          else Yield {| sse_data := status |}
                     {| last_status := status; last_id := last_id st |}
      end
  end.

(** How the generator stands once the messages received so far are
    consumed: blocked in [pubsub.listen()] with its variables, or ended by
    an exception. The loop has no other exit. *)
Inductive GenEnd : Type :=
  | Listening (st : GenState)
  | Ended (e : PyExc).

(** The events yielded for a sequence of messages, and where the
    generator stands afterwards. *)
Fixpoint gen_from (task_id : string) (st : GenState) (msgs : list Msg)
    : list ServerSentEvent * GenEnd :=
  match msgs with
  | [] => ([], Listening st)
  | msg :: rest =>
      match gen_turn task_id st msg with
      | Continue st' => gen_from task_id st' rest
      | Yield ev st' =>
          let '(evs, fin) := gen_from task_id st' rest in (ev :: evs, fin)
      | Raised e => ([], Ended e)
      end
  end.

Definition gen (task_id : string) (msgs : list Msg)
    : list ServerSentEvent * GenEnd :=
  gen_from task_id gen_init msgs.

(** [sse_stream]: the job is looked up in both queues by the request's
    [task_id]; the response body is the generator. *)
Definition sse_stream (w : RQ) (task_id : string)
    : Outcome (list Msg -> list ServerSentEvent * GenEnd) :=
  job ← fetch_job (queue w) (PStr task_id);
  job ← (if is_None job then fetch_job (failed_queue w) (PStr task_id)
         else mret job);
  if is_None job then abort 404
  else mret (gen task_id).

(** ** [_get_basic_info] *)

Definition _get_basic_info (mets_url : option string) : Outcome Dict :=
  match mets_url with
  | None => Raise TypeError
  | Some url =>
      doc ← read_mets E url;
      let thumb_urls := doc_jpeg doc in
      let thumb_urls :=
        match thumb_urls with
        | [] => doc_jpg doc
        | _ => thumb_urls
        end in
      logo ← match doc_metadata doc !! "logo" with
             | Some v => mret v
             | None => Raise KeyError
             end;
      owner ← match doc_metadata doc !! "attribution" with
              | Some v => mret v
              | None => Raise KeyError
              end;
      mret ({[ "metsurl" := VStr url;
               "label" := make_label E (doc_metadata doc);
               "thumbnail" := match thumb_urls with
                              | u :: _ => VStr u
                              | [] => VNone
                              end;
               "attribution" := VDict {[ "logo" := logo; "owner" := owner ]}
            ]} : Dict)
  end.

(** ** The regular expressions of the import endpoint *)

(** [re.match(r'https?://dfg-viewer.de/show/.*?', url)]: anchored at the
    start; the [s] is optional; the dot before [de] is any character but a
    newline; the lazy tail matches the empty string. *)
Definition re_match_dfgviewer (url : string) : bool :=
  match strip_prefix "http" url with
  | None => false
  | Some r =>
      let tail (r : string) : bool :=
        match strip_prefix "://dfg-viewer" r with
        | Some (String c r') =>
            negb (Ascii.eqb c newline)
            && bool_decide (is_Some (strip_prefix "de/show/" r'))
        | _ => false
        end in
      match r with
      | String "s" r' => tail r' || tail r
      | _ => tail r
      end
  end.

(** A pattern [name(http[^c]+)], with [name] a literal and [c] one
    character, tried at the start of [s]: its group 1. The repetition is
    greedy and ends the pattern, so the group runs up to the first [c] or
    to the end of [s]. *)
Definition group_at (name : string) (stop : ascii) (s : string) : option string :=
  match strip_prefix (name +:+ "http") s with
  | Some r =>
      match take_while (fun c => negb (Ascii.eqb c stop)) r with
      | EmptyString => None
      | v => Some ("http" +:+ v)
      end
  | None => None
  end.

(** [set\[mets\]=(http[^&]+)] *)
Definition set_mets_at : string -> option string :=
  group_at "set[mets]=" "&".

(** [tx_dlf\[id\]=(http.+)]: the dot is any character but a newline. *)
Definition tx_dlf_at : string -> option string :=
  group_at "tx_dlf[id]=" newline.

(** [re.findall] for a pattern made of a literal of [lit] characters
    followed by its one group: the groups of the matches, left to right,
    each search resuming where the previous match ended. [skip] counts
    the characters of the current match still to pass. *)
Fixpoint findall (at_ : string -> option string) (lit : nat) (skip : nat)
    (s : string) : list string :=
  match s with
  | EmptyString => []
  | String _ s' =>
      match skip with
      | S k => findall at_ lit k s'
      | O =>
          match at_ s with
          | Some g => g :: findall at_ lit (lit + String.length g - 1) s'
          | None => findall at_ lit O s'
          end
      end
  end.

(** ** [_extract_mets_from_dfgviewer] *)

Definition _extract_mets_from_dfgviewer (url : string) : option string :=
  let url := unquote E url in
  let mets_url := findall set_mets_at 10 0 url in
  let mets_url :=
    match mets_url with
    | [] => findall tx_dlf_at 11 0 url
    | _ => mets_url
    end in
  match mets_url with
  | m :: _ => Some m
  | [] => None
  end.

(** ** [api_import] *)

(** [requests.head(url)]: a URL that is [None] is refused before any
    request is made. *)
Definition requests_head (url : option string) : Outcome Z :=
  match url with
  | None => Raise MissingSchema
  | Some u => http_head E u
  end.

(** Truthiness of a [requests] response: its status is no error status. *)
Definition response_ok (status_code : Z) : bool :=
  negb ((400 <=? status_code) && (status_code <? 600)).

(** [queue.enqueue(import_mets_job, mets_url, meta=job_meta)] *)
Definition enqueue (w : RQ) (arg : Val) (meta : Dict) : Job * RQ :=
  let jid := new_job_id E w in
  let h := {| h_status := "queued"; h_meta := meta; h_exc_info := VNone;
              h_result := VNone; h_args := [arg] |} in
  ({| job_id := jid; job_hash := h |},
   {| queue := {| q_jobs := <[jid := h]> (q_jobs (queue w));
                  q_job_ids := q_job_ids (queue w) ++ [jid] |};
      failed_queue := failed_queue w |}).

(** [url_for('api.api_task_status', task_id=..., _external=True)] *)
Definition status_url_for (task_id : string) : string :=
  url_root E +:+ "/api/tasks/" +:+ task_id.

(** One run of the view: what it returns or raises, the queues afterwards,
    and the argument its call of [requests.head] was given. *)
Record ImportRun := {
  run_outcome : Outcome Response;
  run_rq : RQ;
  run_probed : option string
}.

(** [jsonify({'message': ...}), 400] *)
Definition no_mets : Response :=
  with_status 400 (jsonify (VDict {[ "message" :=
    VStr "There is no METS available at the given URL." ]})).

Definition api_import (w : RQ) (url : string) : ImportRun :=
  let mets_url : option string :=
    if re_match_dfgviewer url then _extract_mets_from_dfgviewer url
    else Some url in
  let resp : option Z :=
    match requests_head mets_url with
    | Return r => Some r
    | Raise _ => None
    end in
  let ok := match resp with Some r => response_ok r | None => false end in
  if negb ok then
    {| run_outcome := mret no_mets;
       run_rq := w;
       run_probed := mets_url |}
  else
    match _get_basic_info mets_url with
    | Raise e => {| run_outcome := Raise e; run_rq := w; run_probed := mets_url |}
    | Return job_meta =>
        let '(job, w') :=
          enqueue w (match mets_url with Some u => VStr u | None => VNone end)
                  job_meta in
        let status_url := status_url_for (job_id job) in
        {| run_outcome :=
             status ← _get_job_status w' (PStr (job_id job));
             mret (with_header "Location" status_url
                     (with_status 202 (jsonify (status_val status))));
           run_rq := w';
           run_probed := mets_url |}
    end.

(** ** [get_image] *)

(** [mimetypes.types_map.get('.' + format)] *)
Definition mime_type (format : string) : Val :=
  match types_map E ("." +:+ format) with
  | Some t => VStr t
  | None => VNone
  end.

(** The [query] dict built from [format] and [size]. *)
Definition image_query (format size : string) : Outcome Dict :=
  let format : Val := mime_type format in
  let query : Dict := {[ "format_" := format ]} in
  if bool_decide (size ≠ "full" ∧ size ≠ "max") then
    let parts := filter (fun v => v ≠ EmptyString) (split "," size) in
    if endswith "," size then
      match parts with
      | p :: _ => w ← py_int p; mret (<[ "width" := VInt w ]> query)
      | [] => Raise IndexError
      end
    else if startswith "," size then
      match parts with
      | p :: _ => h ← py_int p; mret (<[ "height" := VInt h ]> query)
      | [] => Raise IndexError
      end
    else
      ints ← mapM py_int parts;
      match ints with
      | [w; h] => mret (<[ "height" := VInt h ]> (<[ "width" := VInt w ]> query))
      | _ => Raise ValueError
      end
  else mret query.

Definition not_supported (region rotation quality : string) : bool :=
  bool_decide (region ≠ "full")
  || bool_decide (rotation ≠ "0")
  || negb (bool_decide (quality = "default") || bool_decide (quality = "native")).

Definition get_image (db : gmap string IIIFImage)
    (image_id region size rotation quality format : string)
    : Outcome Response :=
  cors "*" (
    if not_supported region rotation quality then abort 501
    else
      match db !! image_id with
      | None => abort 404
      | Some iiif_image =>
          query ← image_query format size;
          match get_image_url E iiif_image query with
          | None => abort 501
          | Some url => mret (redirect url 303)
          end
      end).

End Program.

(** ** The other views of the [api] and [iiif] blueprints *)

Section Views.

Context (E : Externals).

(** [api_list_tasks]: the list that goes under [tasks] in the JSON body,
    one status per id of [queue.job_ids], computed in order. *)
Definition api_list_tasks (w : RQ) : Outcome (list (option Dict)) :=
  mapM (fun job_id => _get_job_status E w (PStr job_id))
       (get_job_ids (queue w)).

(** [get_image_info] *)
Definition get_image_info (db : gmap string IIIFImage) (image_id : string)
    : Outcome Response :=
  cors "*" (
    match db !! image_id with
    | None => abort 404
    | Some img => mret (jsonify (image_info img))
    end).

End Views.

(** ** [register_email_notification] *)

(** The Redis keys that hold sets, each with its members. *)
Abbreviation RedisSets := (gmap string (gset string)).

(** [SMEMBERS]: a key that does not exist has no members. *)
Definition smembers (r : RedisSets) (key : string) : gset string :=
  default ∅ (r !! key).

(** [SADD key member ...] *)
Definition sadd (r : RedisSets) (key : string) (members : list string)
    : RedisSets :=
  <[ key := smembers r key ∪ list_to_set members ]> r.

(** The two answers of the view: [jsonify({'error': ...}), 400], and the
    200 answer with the members of the recipient's job set under [jobs],
    which Redis returns in no particular order. *)
Inductive NotifyAnswer : Type :=
  | InvalidEmail
  | Subscribed (jobs : gset string).

(** ['notifications.{}.jobs'.format(recipient)] *)
Definition jobs_key (recipient : string) : string :=
  "notifications." +:+ recipient +:+ ".jobs".

(** ['recipients.{}'.format(job_id)] *)
Definition recipients_key (job_id : string) : string :=
  "recipients." +:+ job_id.

(** The view, with [validate_email(recipient, verify=True)] as a
    parameter. The pipeline is one transaction: with no job id, its
    first command is an [SADD] without members, which Redis refuses, and
    nothing is written. *)
Definition register_email_notification (validate_email : string -> bool)
    (r : RedisSets) (recipient : string) (job_ids : list string)
    : Outcome NotifyAnswer * RedisSets :=
  if negb (validate_email recipient) then (Return InvalidEmail, r)
  else
    match job_ids with
    | [] => (Raise (OtherError "ResponseError"), r)
    | _ =>
        let batch := sadd r (jobs_key recipient) job_ids in
        let batch :=
          foldl (fun b job_id => sadd b (recipients_key job_id) [recipient])
                batch job_ids in
        (Return (Subscribed (smembers batch (jobs_key recipient))), batch)
    end.

(** ** [get_collection] *)

(** [s[1:]] *)
Definition string_tail (s : string) : string :=
  match s with
  | EmptyString => EmptyString
  | String _ s' => s'
  end.

(** The view. [collection_page page_num label collection_id] stands for
    [Manifest.query.paginate] followed by [iiif.make_manifest_collection];
    [server_name] is the configured [SERVER_NAME]. *)
Definition get_collection
    (collection_page : option Z -> string -> string -> Outcome Val)
    (server_name : string) (collection_id page_id : string)
    : Outcome Response :=
  cors "*" (
    if bool_decide (collection_id ≠ "index") then abort 404
    else
      page_num ← (if bool_decide (page_id = "top") then mret None
                  else n ← py_int (string_tail page_id); mret (Some n));
      let label := "All manifests available at " +:+ server_name in
      body ← collection_page page_num label collection_id;
      mret (jsonify body)).

(** ** [api_get_recent_manifests] *)

(** JSON documents, as the manifests are stored. *)
Inductive JsonDoc : Type :=
  | JNull
  | JStr (s : string)
  | JNum (z : Z)
  | JArr (l : list JsonDoc)
  | JObj (m : gmap string JsonDoc).

(** [j[key]] for a string key *)
Definition json_key (j : JsonDoc) (key : string) : Outcome JsonDoc :=
  match j with
  | JObj m =>
      match m !! key with
      | Some v => Return v
      | None => Raise KeyError
      end
  | _ => Raise TypeError
  end.

(** [j[0]] *)
Definition json_first (j : JsonDoc) : Outcome JsonDoc :=
  match j with
  | JArr (x :: _) => Return x
  | JArr [] => Raise IndexError
  | JObj _ => Raise KeyError
  | JStr (String c _) => Return (JStr (String c EmptyString))
  | JStr EmptyString => Raise IndexError
  | _ => Raise TypeError
  end.

(** A row of the manifest table. *)
Record Manifest := {
  m_id : string;
  m_manifest : JsonDoc;
  m_label : string;
  m_origin : string
}.

(** What [paginate] returns, as far as the view reads it. *)
Record Pagination := {
  pg_items : list Manifest;
  pg_has_next : bool;
  pg_next_num : option Z
}.

(** The JSON body of the view. *)
Record RecentPage := {
  next_page : option Z;
  manifests : list (gmap string JsonDoc)
}.

(** One entry of [manifests]; the values are computed in the order of
    the dict display. [manifest_url] stands for [url_for] of the
    manifest view. *)
Definition recent_entry (manifest_url : string -> string) (m : Manifest)
    : Outcome (gmap string JsonDoc) :=
  preview ← (sequences ← json_key (m_manifest m) "sequences";
             sequence ← json_first sequences;
             canvases ← json_key sequence "canvases";
             canvas ← json_first canvases;
             json_key canvas "thumbnail");
  attribution ← json_key (m_manifest m) "attribution";
  logo ← json_key (m_manifest m) "logo";
  mret ({[ "id" := JStr (m_id m);
           "manifest" := JStr (manifest_url (m_id m));
           "preview" := preview;
           "label" := JStr (m_label m);
           "metsurl" := JStr (m_origin m);
           "attribution" := attribution;
           "attribution_logo" := logo ]} : gmap string JsonDoc).

(** The view: [page] is the request's [page] argument, if any, and
    [paginate] stands for [Manifest.query.paginate] with
    [error_out=False]. *)
Definition api_get_recent_manifests (paginate : Z -> Pagination)
    (manifest_url : string -> string) (page : option string)
    : Outcome RecentPage :=
  page_num ← py_int (default "1" page);
  let page_num := if page_num <? 1 then 1 else page_num in
  let pagination := paginate page_num in
  entries ← mapM (recent_entry manifest_url) (pg_items pagination);
  mret {| next_page := if pg_has_next pagination then pg_next_num pagination
                       else None;
          manifests := entries |}.

(** ** [ServerSentEvent] *)

(** A dict display, entry by entry: a key given again keeps its place and
    takes the new value. *)
Fixpoint odict_set {K V} `{EqDecision K} (k : K) (v : V) (d : list (K * V))
    : list (K * V) :=
  match d with
  | [] => [(k, v)]
  | (k', v') :: d' =>
      if decide (k = k') then (k, v) :: d'
      else (k', v') :: odict_set k v d'
  end.

(** [desc_map] of an event made from the string [data]: [event] and [id]
    are both [None]. *)
Definition desc_map (data : string) : list (option string * string) :=
  odict_set None "id"
    (odict_set None "event" (odict_set (Some data) "data" [])).

(** Truthiness of a key of [desc_map]. *)
Definition key_truthy (k : option string) : bool :=
  match k with
  | Some s => negb (String.eqb s EmptyString)
  | None => false
  end.

(** [sep.join(l)] *)
Fixpoint join (sep : string) (l : list string) : string :=
  match l with
  | [] => EmptyString
  | [x] => x
  | x :: l' => x +:+ sep +:+ join sep l'
  end.

Definition nl : string := String newline EmptyString.

(** [ServerSentEvent.encode], for an event whose [data] is a string (any
    other value has been replaced by its [json.dumps] when the event was
    made). *)
Definition sse_encode (data : string) : string :=
  if String.eqb data EmptyString then EmptyString
  else
    let lines :=
      map (fun kv : option string * string =>
             kv.2 +:+ ": " +:+ default "None" kv.1)
          (filter (fun kv : option string * string => key_truthy kv.1 = true)
                  (desc_map data)) in
    join nl lines +:+ nl +:+ nl.

(** ** [nl2br] *)

Definition carriage_return : ascii := ascii_of_nat 13.

Definition is_break (c : ascii) : bool :=
  Ascii.eqb c carriage_return || Ascii.eqb c newline.

(** [jinja2.escape] on a string: the five characters of HTML. *)
Definition escape_char (c : ascii) : string :=
  if Ascii.eqb c "&" then "&amp;"
  else if Ascii.eqb c ">" then "&gt;"
  else if Ascii.eqb c "<" then "&lt;"
  else if Ascii.eqb c "'" then "&#39;"
  else if Ascii.eqb c (ascii_of_nat 34) then "&#34;"
  else String c EmptyString.

Fixpoint escape (s : string) : string :=
  match s with
  | EmptyString => EmptyString
  | String c s' => escape_char c +:+ escape s'
  end.

(** [PARAGRAPH_RE.split]. The pattern is two or more line breaks, each
    a CR LF pair, a CR or a LF; as a lone pair can also be read as a CR
    and a LF, it matches exactly the maximal runs of two or more CR and
    LF characters. [skip] counts the characters of the current run still
    to pass. *)
Fixpoint paragraph_split (skip : nat) (s : string) : list string :=
  match s with
  | EmptyString => [EmptyString]
  | String c s' =>
      match skip with
      | S k => paragraph_split k s'
      | O =>
          let run := String.length (take_while is_break s) in
          if (2 <=? run)%nat then EmptyString :: paragraph_split (run - 1) s'
          else match paragraph_split O s' with
               | p :: ps => String c p :: ps
               | [] => [String c EmptyString]
               end
      end
  end.

(** The filter: the result is the same string with and without
    autoescaping, which only marks it as safe. *)
Definition nl2br (value : string) : string :=
  join (nl +:+ nl)
    (map (fun p => "<p>" +:+ p +:+ "</p>")
         (paragraph_split 0 (escape value))).

(** ** Notions used by the statements *)

(** RQ's own, last exception handler, which runs after
    [_exception_handler] returned: the job gets the status [failed] and
    the formatted traceback. *)
Definition job_failed (j : Job) (traceback : Val) : Job :=
  {| job_id := job_id j;
     job_hash := {| h_status := "failed";
                    h_meta := h_meta (job_hash j);
                    h_exc_info := traceback;
                    h_result := h_result (job_hash j);
                    h_args := h_args (job_hash j) |} |}.

(** A status is terminal when its [status] field is [finished] or
    [failed]. *)
Definition terminal (d : Dict) : Prop :=
  d !! "status" = Some (VStr "finished") ∨ d !! "status" = Some (VStr "failed").

(** No two neighbours of the list are equal. *)
Fixpoint adjacent_distinct {A} (l : list A) : Prop :=
  match l with
  | x :: (y :: _) as t => x ≠ y ∧ adjacent_distinct t
  | _ => True
  end.

Fixpoint string_forall (f : ascii -> bool) (s : string) : bool :=
  match s with
  | EmptyString => true
  | String c s' => f c && string_forall f s'
  end.

Definition is_digit (c : ascii) : bool :=
  let n := nat_of_ascii c in ((48 <=? n) && (n <=? 57))%nat.

(** A size component of the grammar: one or more decimal digits. *)
Definition is_number (s : string) : bool :=
  negb (String.eqb s EmptyString) && string_forall is_digit s.

(** The number a string of decimal digits denotes. *)
Fixpoint decimal_from (acc : Z) (s : string) : Z :=
  match s with
  | EmptyString => acc
  | String c s' => decimal_from (10 * acc + (Z.of_nat (nat_of_ascii c) - 48)) s'
  end.
Definition decimal (s : string) : Z := decimal_from 0 s.

Definition no_char (c : ascii) (s : string) : bool :=
  string_forall (fun x => negb (Ascii.eqb x c)) s.


(** [u] holds the parameter [name] with a value that starts with [http]
    and one more character other than [stop]. *)
Definition has_param (name : string) (stop : ascii) (u : string) : Prop :=
  ∃ pre c rest,
    u = pre +:+ name +:+ "http" +:+ String c rest ∧ c ≠ stop.

(** ** Notions used by the statements on [nl2br] *)

(** No character of [s] is a CR or a LF. *)
Definition no_break (s : string) : bool :=
  string_forall (fun c => negb (is_break c)) s.

(** Every character of [s] is a CR or a LF. *)
Definition all_breaks (s : string) : bool := string_forall is_break s.

(** [s] is empty or starts with a character that is no CR and no LF. *)
Definition starts_plain (s : string) : bool :=
  match s with
  | EmptyString => true
  | String c _ => negb (is_break c)
  end.

(** No two neighbours in [s] are both CR or LF characters. *)
Fixpoint lone_breaks (s : string) : bool :=
  match s with
  | EmptyString => true
  | String c s' =>
      negb (is_break c && negb (starts_plain s')) && lone_breaks s'
  end.

(** ** A sample deployment

    Concrete stand-ins for the imported parts, used to run the program on
    examples. *)
Module Sample.

Definition hex_val (c : ascii) : option nat :=
  let n := nat_of_ascii c in
  if ((48 <=? n) && (n <=? 57))%nat then Some (n - 48)%nat
  else if ((65 <=? n) && (n <=? 70))%nat then Some (n - 55)%nat
  else if ((97 <=? n) && (n <=? 102))%nat then Some (n - 87)%nat
  else None.

(** Percent-decoding, which is what [unquote] does on escapes of ASCII
    characters; an escape that is not two hex digits stays as it is. *)
Fixpoint percent_decode (s : string) : string :=
  match s with
  | EmptyString => EmptyString
  | String c s' =>
      let keep := String c (percent_decode s') in
      if Ascii.eqb c "%" then
        match s' with
        | String a (String b s'') =>
            match hex_val a, hex_val b with
            | Some x, Some y =>
                String (ascii_of_nat (16 * x + y))
                  (match percent_decode s' with
                   | String _ (String _ r) => r
                   | r => r
                   end)
            | _, _ => keep
            end
        | _ => keep
        end
      else keep
  end.

Definition mets_url : string := "http://example.org/mets.xml".

Definition doc : MetsDocument :=
  {| doc_metadata := {[ "title" := VStr "Codex"; "logo" := VStr "http://example.org/logo.png";
                        "attribution" := VStr "Example Library" ]};
     doc_jpeg := ["http://example.org/0001.jpg"];
     doc_jpg := [] |}.

Definition E : Externals :=
  {| unquote := percent_decode;
     http_head := fun u =>
       if bool_decide (u = mets_url) then Return 200
       else if bool_decide (u = "http://example.org/page.html") then Return 200
       else if bool_decide (u = "http://example.org/gone.xml") then Return 404
       else Raise (OtherError "ConnectionError");
     read_mets := fun u =>
       if bool_decide (u = mets_url) then Return doc
       else Raise (OtherError "XMLSyntaxError");
     make_label := fun md => default (VStr "Untitled") (md !! "title");
     new_job_id := fun _ => "job-9";
     fetch_job_none := None;
     url_root := "http://localhost:5000";
     types_map := fun ext =>
       if bool_decide (ext = ".jpg") then Some "image/jpeg"
       else if bool_decide (ext = ".png") then Some "image/png"
       else None;
     get_image_url := fun img _ =>
       match image_info img with
       | VStr u => Some u
       | _ => None
       end;
     format_exc := fun _ => "Traceback (most recent call last)" |}.

Definition hash (status : string) (meta : Dict) : JobHash :=
  {| h_status := status; h_meta := meta; h_exc_info := VNone;
     h_result := VNone; h_args := [VStr mets_url] |}.

Definition basic_meta : Dict :=
  {[ "metsurl" := VStr mets_url; "label" := VStr "Codex" ]}.

Definition empty_queue : Queue := {| q_jobs := ∅; q_job_ids := [] |}.

(** Two jobs waiting, one job that failed. *)
Definition rq : RQ :=
  {| queue := {| q_jobs := {[ "job-1" := hash "queued" basic_meta;
                              "job-2" := hash "queued" basic_meta ]};
                 q_job_ids := ["job-1"; "job-2"] |};
     failed_queue :=
       {| q_jobs := {[ "job-0" :=
            {| h_status := "failed";
               h_meta := {[ "type" := VStr "builtins.ValueError";
                            "message" := VStr "no structMap" ]};
               h_exc_info := VStr "Traceback";
               h_result := VNone; h_args := [VStr mets_url] |} ]};
          q_job_ids := ["job-0"] |} |}.

Definition images : gmap string IIIFImage :=
  {[ "img1" := {| image_id := "img1";
                  image_info := VStr "http://example.org/0001.jpg" |};
     "orphan" := {| image_id := "orphan"; image_info := VNone |} ]}.

(** A job that finished, and the queues after its record expired. *)
Definition finished_rq : RQ :=
  {| queue := {| q_jobs := {[ "job-5" :=
                   {| h_status := "finished"; h_meta := basic_meta;
                      h_exc_info := VNone; h_result := VStr "manifest-5";
                      h_args := [VStr mets_url] |} ]};
                 q_job_ids := [] |};
     failed_queue := empty_queue |}.

Definition expired_rq : RQ :=
  {| queue := empty_queue; failed_queue := empty_queue |}.

Definition finished_status : Dict :=
  {[ "id" := VStr "job-5"; "status" := VStr "finished";
     "metsurl" := VStr mets_url; "label" := VStr "Codex";
     "result" := VStr "manifest-5" ]}.

(** The keyspace notification for a change of job [id]. *)
Definition msg (id : string) (w : RQ) : Msg :=
  {| msg_channel := "__keyspace@0__:rq:job:" +:+ id; msg_rq := w |}.

End Sample.

(** Further stand-ins, for the examples of the other views. *)
Module MoreSamples.

(** A document whose metadata has neither logo nor attribution. *)
Definition bare_doc : MetsDocument :=
  {| doc_metadata := {[ "title" := VStr "Codex" ]};
     doc_jpeg := [];
     doc_jpg := [] |}.

(** The sample deployment, reading [bare_doc] at every URL. *)
Definition E_bare : Externals :=
  {| unquote := unquote Sample.E;
     http_head := http_head Sample.E;
     read_mets := fun _ => Return bare_doc;
     make_label := make_label Sample.E;
     new_job_id := new_job_id Sample.E;
     fetch_job_none := fetch_job_none Sample.E;
     url_root := url_root Sample.E;
     types_map := types_map Sample.E;
     get_image_url := get_image_url Sample.E;
     format_exc := format_exc Sample.E |}.

(** An address check that asks for an at sign. *)
Definition valid_email (s : string) : bool := negb (no_char "@" s).

(** Redis with one subscription. *)
Definition redis : RedisSets :=
  {[ "notifications.a@example.org.jobs" := {[ "job-1" ]} ]}.

(** A manifest with one canvas, and one without sequences. *)
Definition manifest_json : JsonDoc :=
  JObj {[ "sequences" :=
            JArr [JObj {[ "canvases" :=
              JArr [JObj {[ "thumbnail" := JStr "http://example.org/t.jpg" ]}] ]}];
          "attribution" := JStr "Example Library";
          "logo" := JStr "http://example.org/logo.png" ]}.

Definition good_manifest : Manifest :=
  {| m_id := "codex"; m_manifest := manifest_json; m_label := "Codex";
     m_origin := Sample.mets_url |}.

Definition empty_manifest : Manifest :=
  {| m_id := "void"; m_manifest := JObj {[ "sequences" := JArr [] ]};
     m_label := "Void"; m_origin := Sample.mets_url |}.

Definition paginate (page : Z) : Pagination :=
  {| pg_items := if page =? 1 then [good_manifest]
                 else if page =? 2 then [good_manifest; empty_manifest]
                 else [];
     pg_has_next := page <? 2;
     pg_next_num := Some (page + 1) |}.

Definition manifest_url (id : string) : string :=
  "http://localhost:5000/iiif/" +:+ id +:+ "/manifest".

Definition collection_page (page_num : option Z) (label collection_id : string)
    : Outcome Val :=
  Return (VDict {[ "label" := VStr label;
                   "page" := match page_num with
                             | Some n => VInt n
                             | None => VNone
                             end ]}).

End MoreSamples.

(** * Job status *)

Lemma list_index_first x (l : list string) i :
  l !! i = Some x → (∀ k, (k < i)%nat → l !! k ≠ Some x) →
  list_index x l = Some i.
Proof.
  revert i. induction l as [|y l IH]; intros i Hi Hmin; [discriminate|].
  simpl. destruct (decide (x = y)) as [->|Hne].
  - destruct i as [|i]; [reflexivity|].
    exfalso. apply (Hmin O); [lia | reflexivity].
  - destruct i as [|i]; simpl in Hi; [congruence|].
    rewrite (IH i Hi); [reflexivity|].
    intros k Hk. apply (Hmin (S k)). lia.
Qed.

Lemma list_index_absent x (l : list string) :
  x ∉ l → list_index x l = None.
Proof.
  induction l as [|y l IH]; intros Hx; [reflexivity|].
  simpl. apply not_elem_of_cons in Hx as [Hne Hx].
  destruct (decide (x = y)); [congruence|].
  rewrite (IH Hx). reflexivity.
Qed.

Section JobStatus.

Context (E : Externals).

(** A job object always has a status dict, with [id] and [status]. *)
Lemma get_job_status_job w j :
  ∃ out, _get_job_status E w (PJob j) = Return (Some out)
    ∧ is_Some (out !! "id") ∧ is_Some (out !! "status").
Proof.
  unfold _get_job_status; simpl.
  eexists; split; [reflexivity|].
  unfold dict_update.
  repeat case_bool_decide; try congruence; split;
    rewrite ?lookup_insert_ne by done;
    rewrite ?lookup_union; simpl;
    rewrite ?lookup_insert_eq, ?lookup_insert_ne by done;
    rewrite ?lookup_insert_eq, ?lookup_singleton_eq;
    try (destruct (job_meta j !! _); simpl); eauto.
Qed.

Lemma get_job_status_by_id w task_id h :
  q_jobs (queue w) !! task_id = Some h →
  _get_job_status E w (PStr task_id)
  = _get_job_status E w (PJob {| job_id := task_id; job_hash := h |}).
Proof.
  intros Hq. unfold _get_job_status at 1; simpl. rewrite Hq. reflexivity.
Qed.

Lemma get_job_status_unknown w task_id :
  q_jobs (queue w) !! task_id = None →
  _get_job_status E w (PStr task_id)
  = match fetch_job_none E with
    | None => Return None
    | Some e => Raise e
    end.
Proof.
  intros Hq. unfold _get_job_status; simpl. rewrite Hq; simpl.
  destruct (fetch_job_none E); reflexivity.
Qed.

(** An id the active queue knows gets its status with 200. *)
Lemma api_task_status_active w task_id h :
  q_jobs (queue w) !! task_id = Some h →
  ∃ out, _get_job_status E w (PStr task_id) = Return (Some out)
    ∧ api_task_status E w task_id = Return (jsonify (VDict out)).
Proof.
  intros Hq. unfold api_task_status.
  rewrite (get_job_status_by_id _ _ _ Hq).
  destruct (get_job_status_job w {| job_id := task_id; job_hash := h |})
    as (out & -> & [v Hid] & _).
  exists out; split; [reflexivity|]. simpl.
  case_bool_decide as Hempty; [|reflexivity].
  subst out. rewrite lookup_empty in Hid. discriminate.
Qed.

(** The lookup of [sse_stream] does reach the failed queue. *)
Lemma sse_stream_failed_queue w task_id h :
  q_jobs (queue w) !! task_id = None →
  q_jobs (failed_queue w) !! task_id = Some h →
  sse_stream E w task_id = Return (gen E task_id).
Proof.
  intros Hq Hf. unfold sse_stream; simpl. rewrite Hq; simpl. rewrite Hf.
  reflexivity.
Qed.

(** C1. [GET /api/tasks/{id}] for an id that the active queue does not
    know: the failed queue is asked for [None], not for the id, so what
    the request gets does not depend on the failed queue at all. It is
    404 when RQ answers [None] to that, and the exception RQ raises
    otherwise; a job known to the failed queue alone never gets its
    status. *)
Theorem api_task_status_skips_failed_queue w task_id :
  q_jobs (queue w) !! task_id = None →
  api_task_status E w task_id
  = match fetch_job_none E with
    | None => abort 404
    | Some e => Raise e
    end.
Proof.
  intros Hq. unfold api_task_status.
  rewrite (get_job_status_unknown _ _ Hq).
  destruct (fetch_job_none E); reflexivity.
Qed.

(** C4. The status of a job fetched from the active queue: when the job
    is queued, [position] is the zero-based index of the first
    occurrence of its id in the queue's id list, and null when the id is
    not in that list; when it is not queued, and its metadata has no
    entry of that name, there is no [position] field. *)
Theorem queued_position w task_id h :
  q_jobs (queue w) !! task_id = Some h →
  ∃ out, _get_job_status E w (PStr task_id) = Return (Some out)
    ∧ (h_status h = "queued" →
         (∀ i : nat,
            q_job_ids (queue w) !! i = Some task_id →
            (∀ k, (k < i)%nat → q_job_ids (queue w) !! k ≠ Some task_id) →
            out !! "position" = Some (VInt (Z.of_nat i)))
         ∧ (task_id ∉ q_job_ids (queue w) →
            out !! "position" = Some VNone))
    ∧ (h_status h ≠ "queued" → h_meta h !! "position" = None →
         out !! "position" = None).
Proof.
  intros Hq. rewrite (get_job_status_by_id _ _ _ Hq).
  unfold _get_job_status; simpl. unfold get_status, job_meta; simpl.
  eexists; split; [reflexivity|]. split.
  - intros Hst. rewrite Hst. simpl. split.
    + intros i Hi Hmin. rewrite lookup_insert_eq.
      unfold get_job_ids. rewrite (list_index_first _ _ _ Hi Hmin).
      reflexivity.
    + intros Hnot. rewrite lookup_insert_eq.
      unfold get_job_ids. rewrite (list_index_absent _ _ Hnot). reflexivity.
  - intros Hst Hmeta. unfold dict_update.
    repeat case_bool_decide; try congruence;
      rewrite ?lookup_insert_ne by done;
      rewrite ?lookup_union, ?Hmeta; simpl;
      rewrite ?lookup_insert_ne by done;
      rewrite ?lookup_singleton_ne by done; reflexivity.
Qed.

End JobStatus.

Lemma api_task_status_skips_failed_queue_witness :
  is_Some (q_jobs (failed_queue Sample.rq) !! "job-0")
  ∧ api_task_status Sample.E Sample.rq "job-0" = abort 404.
Proof.
  split.
  - eexists. vm_compute. reflexivity.
  - apply (api_task_status_skips_failed_queue Sample.E Sample.rq "job-0").
    vm_compute. reflexivity.
Defined.

Lemma queued_position_witness :
  ∃ out, _get_job_status Sample.E Sample.rq (PStr "job-2") = Return (Some out)
    ∧ out !! "position" = Some (VInt 1).
Proof.
  destruct (queued_position Sample.E Sample.rq "job-2"
              (Sample.hash "queued" Sample.basic_meta))
    as (out & Hout & Hqueued & _).
  - vm_compute. reflexivity.
  - exists out. split; [exact Hout|].
    destruct (Hqueued eq_refl) as [Hpos _].
    apply (Hpos 1%nat).
    + vm_compute. reflexivity.
    + intros k Hk. assert (k = O) as -> by lia. vm_compute. discriminate.
Defined.

(** * The worker's exception handler *)

Section Failure.

Context (E : Externals).

(** The metadata [_get_basic_info] builds has no [position] entry. *)
Lemma basic_info_no_position mets_url meta :
  _get_basic_info E mets_url = Return meta → meta !! "position" = None.
Proof.
  unfold _get_basic_info. destruct mets_url as [url|]; [|discriminate].
  destruct (read_mets E url) as [doc|]; simpl; [|discriminate].
  destruct (doc_metadata doc !! "logo"); simpl; [|discriminate].
  destruct (doc_metadata doc !! "attribution"); simpl; [|discriminate].
  intros [= <-]. rewrite !lookup_insert_ne by done.
  by rewrite lookup_singleton_ne.
Qed.

(** Nor has the metadata the exception handler stores. *)
Lemma exception_handler_no_position job exc job' :
  _exception_handler job exc = Return job' →
  job_meta job' !! "position" = None.
Proof.
  unfold _exception_handler. destruct (exc_args exc); simpl; [discriminate|].
  intros [= <-]. unfold job_meta; simpl.
  rewrite lookup_insert_ne by done. by rewrite lookup_singleton_ne.
Qed.

(** C2 as amended. When the exception has a first argument, the handler
    stores the type name (qualified by the module when there is one) and
    that argument as the job's metadata. Once the job is failed, its
    status has exactly the fields [id], [status] and [traceback]: the
    metadata is merged only into the status of jobs that are not
    failed. *)
Theorem failure_descriptor w job exc a rest tb :
  exc_args exc = a :: rest →
  ∃ job',
    _exception_handler job exc = Return job'
    ∧ job_id job' = job_id job
    ∧ job_meta job'
      = {[ "type" := VStr (match exc_module exc with
                          | Some m => m +:+ "." +:+ exc_class_name exc
                          | None => exc_class_name exc
                          end);
           "message" := a ]}
    ∧ _get_job_status E w (PJob (job_failed job' tb))
      = Return (Some {[ "id" := VStr (job_id job);
                        "status" := VStr "failed";
                        "traceback" := tb ]}).
Proof.
  intros Hargs. unfold _exception_handler. rewrite Hargs; simpl.
  eexists; split; [reflexivity|]. split; [reflexivity|].
  split; reflexivity.
Qed.

End Failure.

Lemma failure_descriptor_witness :
  ∃ job',
    _exception_handler
      {| job_id := "job-7"; job_hash := Sample.hash "started" Sample.basic_meta |}
      {| exc_module := Some "builtins"; exc_class_name := "ValueError";
         exc_args := [VStr "no structMap"] |} = Return job'
    ∧ job_meta job' = {[ "type" := VStr "builtins.ValueError";
                         "message" := VStr "no structMap" ]}
    ∧ _get_job_status Sample.E Sample.rq (PJob (job_failed job' (VStr "Traceback")))
      = Return (Some {[ "id" := VStr "job-7"; "status" := VStr "failed";
                        "traceback" := VStr "Traceback" ]}).
Proof.
  destruct (failure_descriptor Sample.E Sample.rq
              {| job_id := "job-7";
                 job_hash := Sample.hash "started" Sample.basic_meta |}
              {| exc_module := Some "builtins"; exc_class_name := "ValueError";
                 exc_args := [VStr "no structMap"] |}
              (VStr "no structMap") [] (VStr "Traceback") eq_refl)
    as (job' & Hh & _ & Hmeta & Hstatus).
  exists job'. split; [exact Hh|]. split; [exact Hmeta | exact Hstatus].
Defined.

(** C2 as stated fails: after the handler ran and the job failed, the
    status JSON has neither [type] nor [message]. *)
Lemma failed_status_without_type_and_message :
  ∃ job' out,
    _exception_handler
      {| job_id := "job-7"; job_hash := Sample.hash "started" Sample.basic_meta |}
      {| exc_module := Some "builtins"; exc_class_name := "ValueError";
         exc_args := [VStr "no structMap"] |} = Return job'
    ∧ _get_job_status Sample.E Sample.rq (PJob (job_failed job' (VStr "Traceback")))
      = Return (Some out)
    ∧ ¬ (is_Some (out !! "traceback") ∧ is_Some (out !! "type")
         ∧ is_Some (out !! "message")).
Proof.
  eexists. eexists. split; [reflexivity|]. split; [reflexivity|].
  intros (_ & [v Hv] & _). vm_compute in Hv. discriminate.
Qed.

(** * The live stream *)

Section Stream.

Context (E : Externals).

(** What one turn of the loop does to [last_status]. *)
Lemma gen_turn_spec task_id st msg :
  match gen_turn E task_id st msg with
  | Yield ev st' =>
      _get_job_status E (msg_rq msg) (PStr task_id) = Return (sse_data ev)
      ∧ sse_data ev ≠ last_status st
      ∧ last_status st' = sse_data ev
  | Continue st' => last_status st' = last_status st
  | Raised _ => True
  end.
Proof.
  unfold gen_turn.
  destruct (if bool_decide _ then _ else _) as [[|]|e]; simpl; try done.
  destruct (_get_job_status E (msg_rq msg) (PStr task_id)) as [status|e];
    [|done].
  case_bool_decide as Heq; simpl; [reflexivity|].
  split; [reflexivity|]. split; [exact Heq | reflexivity].
Qed.

(** The yielded statuses, with the [last_status] the generator started
    from in front, never repeat a neighbour. *)
Lemma gen_from_adjacent_distinct task_id msgs st :
  adjacent_distinct
    (last_status st :: map sse_data (gen_from E task_id st msgs).1).
Proof.
  revert st. induction msgs as [|msg rest IH]; intros st; simpl; [done|].
  pose proof (gen_turn_spec task_id st msg) as Hturn.
  destruct (gen_turn E task_id st msg) as [st'|ev st'|e]; simpl.
  - rewrite <- Hturn. apply IH.
  - destruct Hturn as (_ & Hne & Hlast).
    specialize (IH st'). rewrite Hlast in IH.
    destruct (gen_from E task_id st' rest) as [evs fin]; simpl in *.
    split; [congruence | exact IH].
  - done.
Qed.

Lemma adjacent_distinct_tail {A} (x : A) l :
  adjacent_distinct (x :: l) → adjacent_distinct l.
Proof. destruct l; simpl; tauto. Qed.

(** C5. The statuses the stream yields for a job never repeat twice in a
    row, whatever the notifications; and in each turn of the loop an
    event is yielded only with the status just recomputed, only when it
    differs from [last_status], which then becomes that status, and is
    left as it was when nothing is yielded. *)
Theorem stream_never_repeats_status task_id msgs :
  adjacent_distinct (map sse_data (gen E task_id msgs).1)
  ∧ ∀ st msg,
      match gen_turn E task_id st msg with
      | Yield ev st' =>
          _get_job_status E (msg_rq msg) (PStr task_id) = Return (sse_data ev)
          ∧ sse_data ev ≠ last_status st
          ∧ last_status st' = sse_data ev
      | Continue st' => last_status st' = last_status st
      | Raised _ => True
      end.
Proof.
  split.
  - apply (adjacent_distinct_tail (last_status gen_init)).
    apply gen_from_adjacent_distinct.
  - intros st msg. apply gen_turn_spec.
Qed.

(** C6 as amended. The loop has no exit of its own. With a terminal
    status as [last_status], every further notification at which the
    recomputed status is still that status yields nothing, and after
    any number of them the generator is still listening. *)
Theorem gen_keeps_listening task_id st d msgs :
  last_status st = Some d →
  terminal d →
  Forall (fun m => _get_job_status E (msg_rq m) (PStr task_id)
                   = Return (Some d)) msgs →
  ∃ st', gen_from E task_id st msgs = ([], Listening st')
         ∧ last_status st' = Some d.
Proof.
  intros Hlast Hterm Hall. revert st Hlast.
  induction Hall as [|m rest Hm _ IH]; intros st Hlast; simpl.
  - exists st. split; [reflexivity | exact Hlast].
  - assert (Hns : not_started (Some d) = Return true).
    { unfold not_started.
      destruct Hterm as [-> | ->]; simpl; reflexivity. }
    unfold gen_turn. rewrite Hlast, Hns.
    case_bool_decide as Hid; simpl.
    + apply IH. exact Hlast.
    + rewrite Hm. rewrite bool_decide_eq_true_2 by reflexivity.
      apply IH. reflexivity.
Qed.

End Stream.

Lemma gen_keeps_listening_witness :
  ∃ st', gen_from Sample.E "job-5"
           {| last_status := Some Sample.finished_status;
              last_id := Some "job-5" |}
           [Sample.msg "job-5" Sample.finished_rq;
            Sample.msg "job-6" Sample.finished_rq]
         = ([], Listening st')
         ∧ last_status st' = Some Sample.finished_status.
Proof.
  apply (gen_keeps_listening Sample.E "job-5"
           {| last_status := Some Sample.finished_status;
              last_id := Some "job-5" |} Sample.finished_status).
  - reflexivity.
  - left. vm_compute. reflexivity.
  - repeat constructor.
Defined.

(** C6 as stated fails: the terminal status of the finished job is
    yielded at the first notification, after which the generator is
    listening, not ended; at a later notification, when the job's record
    is gone, it yields again. *)
Lemma stream_goes_on_after_terminal_status :
  terminal Sample.finished_status
  ∧ (∃ st, gen Sample.E "job-5" [Sample.msg "job-5" Sample.finished_rq]
           = ([ {| sse_data := Some Sample.finished_status |} ], Listening st))
  ∧ (∃ st, gen Sample.E "job-5"
             [Sample.msg "job-5" Sample.finished_rq;
              Sample.msg "job-6" Sample.expired_rq]
           = ([ {| sse_data := Some Sample.finished_status |};
                {| sse_data := None |} ], Listening st)).
Proof.
  split; [left; vm_compute; reflexivity|].
  split; eexists; vm_compute; reflexivity.
Qed.

(** * Strings and the two patterns *)

Lemma string_app_nil (b : string) : EmptyString +:+ b = b.
Proof. reflexivity. Qed.

Lemma string_app_cons x (a b : string) : String x a +:+ b = String x (a +:+ b).
Proof. reflexivity. Qed.

Lemma string_app_assoc (a b c : string) : (a +:+ b) +:+ c = a +:+ (b +:+ c).
Proof.
  induction a as [|x a IH]; [reflexivity|].
  rewrite !string_app_cons. by rewrite IH.
Qed.

Lemma strip_prefix_Some p s r : strip_prefix p s = Some r ↔ s = p +:+ r.
Proof.
  revert s. induction p as [|a p IH]; intros s; simpl.
  - split; [intros [= ->]; reflexivity | intros ->; reflexivity].
  - destruct s as [|b s]; [split; discriminate|].
    destruct (Ascii.eqb_spec a b) as [->|Hne].
    + rewrite IH. split; [intros ->; reflexivity | intros [= ->]; reflexivity].
    + split; [discriminate | intros [= -> _]; congruence].
Qed.

Lemma take_while_split f s :
  ∃ rest, s = take_while f s +:+ rest
    ∧ string_forall f (take_while f s) = true
    ∧ (rest = EmptyString ∨ ∃ c rest', rest = String c rest' ∧ f c = false).
Proof.
  induction s as [|c s (rest & Hs & Hall & Hrest)]; simpl.
  - exists EmptyString. split; [reflexivity|]. split; [reflexivity | by left].
  - destruct (f c) eqn:Hc; simpl.
    + exists rest. rewrite string_app_cons, <- Hs, Hc, Hall.
      split; [reflexivity|]. split; [reflexivity | exact Hrest].
    + exists (String c s). split; [reflexivity|]. split; [reflexivity|].
      right. by exists c, s.
Qed.

Lemma group_at_Some name stop s g :
  group_at name stop s = Some g →
  ∃ v rest, s = name +:+ g +:+ rest
    ∧ g = "http" +:+ v
    ∧ v ≠ EmptyString
    ∧ no_char stop v = true
    ∧ (rest = EmptyString ∨ ∃ rest', rest = String stop rest').
Proof.
  unfold group_at. destruct (strip_prefix _ s) as [r|] eqn:Hp; [|discriminate].
  apply strip_prefix_Some in Hp.
  destruct (take_while_split (fun c => negb (Ascii.eqb c stop)) r)
    as (rest & Hr & Hall & Hrest).
  destruct (take_while _ r) as [|c v] eqn:Hv; [discriminate|].
  intros [= <-]. exists (String c v), rest.
  split.
  { rewrite Hp, Hr. rewrite !string_app_assoc. reflexivity. }
  split; [reflexivity|]. split; [discriminate|]. split; [exact Hall|].
  destruct Hrest as [->|(x & rest' & -> & Hx)]; [by left|].
  right. exists rest'. apply negb_false_iff, Ascii.eqb_eq in Hx. by subst.
Qed.

Lemma group_at_None name stop s :
  group_at name stop s = None →
  ∀ c rest, s = name +:+ "http" +:+ String c rest → c = stop.
Proof.
  unfold group_at. intros Hg c rest ->.
  assert (Hp : strip_prefix (name +:+ "http") (name +:+ "http" +:+ String c rest)
               = Some (String c rest)).
  { apply strip_prefix_Some. by rewrite string_app_assoc. }
  rewrite Hp in Hg. simpl in Hg.
  destruct (Ascii.eqb_spec c stop) as [->|Hne]; [reflexivity|].
  simpl in Hg. discriminate.
Qed.

(** The first group [findall] returns is the group of the pattern at a
    suffix of the string. *)
Lemma findall_head at_ lit s g gs :
  findall at_ lit 0 s = g :: gs →
  ∃ pre suf, s = pre +:+ suf ∧ at_ suf = Some g.
Proof.
  induction s as [|c s IH]; simpl; [discriminate|].
  destruct (at_ (String c s)) as [g'|] eqn:Hat.
  - intros [= <- _]. by exists EmptyString, (String c s).
  - intros H. destruct (IH H) as (pre & suf & -> & Hsuf).
    by exists (String c pre), suf.
Qed.

(** When [findall] returns nothing, the pattern matches at no suffix. *)
Lemma findall_nil at_ lit s :
  findall at_ lit 0 s = [] →
  ∀ pre suf, s = pre +:+ suf → suf ≠ EmptyString → at_ suf = None.
Proof.
  induction s as [|c s IH]; simpl; intros Hf pre suf Hs Hne.
  - destruct pre as [|x pre];
      [rewrite string_app_nil in Hs; congruence
      |rewrite string_app_cons in Hs; discriminate].
  - destruct (at_ (String c s)) as [g'|] eqn:Hat; [discriminate|].
    destruct pre as [|x pre].
    + rewrite string_app_nil in Hs. by subst suf.
    + rewrite string_app_cons in Hs. injection Hs as -> ->.
      by apply (IH Hf pre suf).
Qed.


Lemma no_group_no_param name stop lit u :
  findall (group_at name stop) lit 0 u = [] → ¬ has_param name stop u.
Proof.
  intros Hf (pre & c & rest & Hu & Hc).
  apply Hc.
  apply (group_at_None name stop (name +:+ "http" +:+ String c rest))
    with (rest := rest); [|reflexivity].
  apply (findall_nil _ _ _ Hf pre); [exact Hu|].
  destruct name; discriminate.
Qed.

(** * The import endpoint *)

Section ImportEndpoint.

Context (E : Externals).

(** The URL that is probed, and the three ways a run can go. *)
Lemma api_import_run w url :
  let m := if re_match_dfgviewer url then _extract_mets_from_dfgviewer E url
           else Some url in
  let r := api_import E w url in
  run_probed r = m
  ∧ match requests_head E m with
    | Raise _ => run_outcome r = Return no_mets ∧ run_rq r = w
    | Return c =>
        if response_ok c then
          match _get_basic_info E m with
          | Raise e => run_outcome r = Raise e ∧ run_rq r = w
          | Return meta =>
              ∃ target status,
                m = Some target
                ∧ q_jobs (queue (run_rq r)) !! new_job_id E w
                  = Some {| h_status := "queued"; h_meta := meta;
                            h_exc_info := VNone; h_result := VNone;
                            h_args := [VStr target] |}
                ∧ q_job_ids (queue (run_rq r))
                  = (q_job_ids (queue w) ++ [new_job_id E w])%list
                ∧ failed_queue (run_rq r) = failed_queue w
                ∧ _get_job_status E (run_rq r) (PStr (new_job_id E w))
                  = Return (Some status)
                ∧ run_outcome r
                  = Return (with_header "Location"
                              (status_url_for E (new_job_id E w))
                              (with_status 202 (jsonify (VDict status))))
          end
        else run_outcome r = Return no_mets ∧ run_rq r = w
    end.
Proof.
  intros m r. subst r. unfold api_import. fold m.
  destruct (requests_head E m) as [c|e] eqn:Hhead; simpl.
  2: { split; [reflexivity|]. split; reflexivity. }
  destruct (response_ok c) eqn:Hok; simpl.
  2: { split; [reflexivity|]. split; reflexivity. }
  destruct (_get_basic_info E m) as [meta|e] eqn:Hinfo; simpl.
  2: { split; [reflexivity|]. split; reflexivity. }
  split; [reflexivity|].
  destruct m as [target|]; [|discriminate].
  set (h := {| h_status := "queued"; h_meta := meta; h_exc_info := VNone;
               h_result := VNone; h_args := [VStr target] |}).
  set (w' := {| queue := _; failed_queue := _ |}).
  assert (Hq : q_jobs (queue w') !! new_job_id E w = Some h)
    by apply lookup_insert_eq.
  destruct (get_job_status_job E w'
              {| job_id := new_job_id E w; job_hash := h |})
    as (status & Hstatus & _).
  rewrite <- (get_job_status_by_id E _ _ _ Hq) in Hstatus.
  exists target, status. split; [reflexivity|]. split; [exact Hq|].
  split; [reflexivity|]. split; [reflexivity|]. split; [exact Hstatus|].
  rewrite Hstatus. reflexivity.
Qed.

(** C3 as amended. The source URL is the posted [url], or, when that is
    a DFG-Viewer URL, the METS URL extracted from it; it is the URL that
    is probed. When the probe of the source URL fails, by raising or with
    an error status, the answer is 400 and the queues are as they were.
    When it succeeds, reading the document's basic metadata decides: if
    that raises, the exception leaves the view, no job is enqueued, and
    the blueprint's handler answers 500; if it returns, a queued job for
    the source URL is added at the end of the queue, and the answer is
    202 with the job's status as body and the job's status URL as
    [Location]. *)
Theorem api_import_probe w url :
  let source := if re_match_dfgviewer url
                then _extract_mets_from_dfgviewer E url
                else Some url in
  let r := api_import E w url in
  run_probed r = source
  ∧ ((∀ c, requests_head E source = Return c → response_ok c = false) →
       run_outcome r = Return no_mets
       ∧ resp_status (serve_api E (run_outcome r)) = 400
       ∧ run_rq r = w)
  ∧ (∀ c, requests_head E source = Return c → response_ok c = true →
       (∀ e, _get_basic_info E source = Raise e →
          run_outcome r = Raise e ∧ run_rq r = w
          ∧ ((∀ code, e ≠ HTTPException code) →
               resp_status (serve_api E (run_outcome r)) = 500))
       ∧ (∀ meta, _get_basic_info E source = Return meta →
            ∃ target status,
              source = Some target
              ∧ q_jobs (queue (run_rq r)) !! new_job_id E w
                = Some {| h_status := "queued"; h_meta := meta;
                          h_exc_info := VNone; h_result := VNone;
                          h_args := [VStr target] |}
              ∧ q_job_ids (queue (run_rq r))
                = (q_job_ids (queue w) ++ [new_job_id E w])%list
              ∧ _get_job_status E (run_rq r) (PStr (new_job_id E w))
                = Return (Some status)
              ∧ run_outcome r
                = Return (with_header "Location"
                            (status_url_for E (new_job_id E w))
                            (with_status 202 (jsonify (VDict status))))
              ∧ resp_status (serve_api E (run_outcome r)) = 202)).
Proof.
  intros source r. destruct (api_import_run w url) as [Hm Hrun].
  fold source in Hm, Hrun. fold r in Hm, Hrun.
  split; [exact Hm|]. split.
  - intros Hbad.
    assert (H400 : run_outcome r = Return no_mets ∧ run_rq r = w).
    { destruct (requests_head E source) as [c|e]; [|exact Hrun].
      rewrite (Hbad c eq_refl) in Hrun. exact Hrun. }
    destruct H400 as [Ho Hw]. split; [exact Ho|]. split; [|exact Hw].
    by rewrite Ho.
  - intros c Hc Hok. rewrite Hc, Hok in Hrun. split.
    + intros e He. rewrite He in Hrun. destruct Hrun as [Ho Hw].
      split; [exact Ho|]. split; [exact Hw|].
      intros Hne. rewrite Ho. destruct e; try reflexivity.
      by destruct (Hne code).
    + intros meta Hmeta. rewrite Hmeta in Hrun.
      destruct Hrun as (target & status & H1 & H2 & H3 & _ & H4 & H5).
      exists target, status. repeat (split; [assumption|]).
      by rewrite H5.
Qed.


End ImportEndpoint.

Lemma api_import_probe_witness :
  let r := api_import Sample.E Sample.rq Sample.mets_url in
  ∃ status,
    run_probed r = Some Sample.mets_url
    ∧ q_job_ids (queue (run_rq r)) = ["job-1"; "job-2"; "job-9"]
    ∧ _get_job_status Sample.E (run_rq r) (PStr "job-9") = Return (Some status)
    ∧ run_outcome r
      = Return (with_header "Location" "http://localhost:5000/api/tasks/job-9"
                  (with_status 202 (jsonify (VDict status))))
    ∧ (let r' := api_import Sample.E Sample.rq "http://example.org/gone.xml" in
       run_outcome r' = Return no_mets ∧ run_rq r' = Sample.rq).
Proof.
  intros r.
  destruct (api_import_probe Sample.E Sample.rq Sample.mets_url)
    as (Hsource & _ & Hgood).
  destruct (Hgood 200 eq_refl eq_refl) as [_ Hjob].
  destruct (Hjob _ eq_refl)
    as (target & status & _ & _ & Hids & Hst & Hout & _).
  exists status. split; [exact Hsource|]. split; [exact Hids|].
  split; [exact Hst|]. split; [exact Hout|].
  destruct (api_import_probe Sample.E Sample.rq "http://example.org/gone.xml")
    as (_ & Hbad & _).
  destruct Hbad as (Ho & _ & Hw); [|by split].
  intros c [= <-]. reflexivity.
Defined.

(** C3 as stated fails: the probe of a page that is no METS document
    succeeds, yet no job is enqueued and the answer is 500. *)
Lemma probe_succeeds_without_job :
  let r := api_import Sample.E Sample.rq "http://example.org/page.html" in
  requests_head Sample.E (run_probed r) = Return 200
  ∧ response_ok 200 = true
  ∧ run_rq r = Sample.rq
  ∧ resp_status (serve_api Sample.E (run_outcome r)) = 500.
Proof. vm_compute. repeat split; reflexivity. Qed.


(** * The size parameter *)

Lemma split_no_sep sep s : no_char sep s = true → split sep s = [s].
Proof.
  unfold no_char. induction s as [|c s IH]; simpl; [reflexivity|].
  intros [Hc Hs]%andb_true_iff. apply negb_true_iff in Hc.
  rewrite Hc, (IH Hs). reflexivity.
Qed.

Lemma split_app sep a b :
  no_char sep a = true → split sep (a +:+ String sep b) = a :: split sep b.
Proof.
  unfold no_char. induction a as [|c a IH]; intros Ha.
  - rewrite string_app_nil. simpl. by rewrite Ascii.eqb_refl.
  - simpl in Ha. apply andb_true_iff in Ha as [Hc Ha].
    apply negb_true_iff in Hc.
    rewrite string_app_cons. simpl. rewrite Hc, (IH Ha). reflexivity.
Qed.

Lemma endswith_refl suf : endswith suf suf = true.
Proof.
  destruct suf as [|c suf]; [reflexivity|].
  change (endswith (String c suf) (String c suf))
    with (if String.eqb (String c suf) (String c suf) then true
          else endswith (String c suf) suf).
  by rewrite String.eqb_refl.
Qed.

Lemma endswith_app suf a : endswith suf (a +:+ suf) = true.
Proof.
  induction a as [|c a IH].
  - rewrite string_app_nil. apply endswith_refl.
  - rewrite string_app_cons.
    change (endswith suf (String c (a +:+ suf)))
      with (if String.eqb (String c (a +:+ suf)) suf then true
            else endswith suf (a +:+ suf)).
    rewrite IH. by destruct (String.eqb _ _).
Qed.

Lemma endswith_char_cons c x s :
  s ≠ EmptyString →
  endswith (String c EmptyString) (String x s)
  = endswith (String c EmptyString) s.
Proof.
  intros Hs. simpl. destruct s as [|y s]; [done|].
  by destruct (Ascii.eqb x c).
Qed.

Lemma endswith_char_app c a s :
  s ≠ EmptyString →
  endswith (String c EmptyString) (a +:+ s)
  = endswith (String c EmptyString) s.
Proof.
  intros Hs. induction a as [|x a IH]; [reflexivity|].
  rewrite string_app_cons, endswith_char_cons; [exact IH|].
  destruct a; [by rewrite string_app_nil | by rewrite string_app_cons].
Qed.

Lemma endswith_no_char c s :
  no_char c s = true → endswith (String c EmptyString) s = false.
Proof.
  unfold no_char. induction s as [|x s IH]; [reflexivity|].
  simpl. intros [Hx Hs]%andb_true_iff. apply negb_true_iff in Hx.
  rewrite Hx. exact (IH Hs).
Qed.

Lemma digit_not_special c :
  is_digit c = true →
  is_space c = false ∧ Ascii.eqb c "," = false
  ∧ digit_val c = Some (Z.of_nat (nat_of_ascii c) - 48)
  ∧ c ≠ "-"%char ∧ c ≠ "+"%char.
Proof.
  destruct c as [[] [] [] [] [] [] [] []]; vm_compute; intros; try discriminate;
    repeat split; discriminate.
Qed.

Lemma digits_no_comma s : string_forall is_digit s = true → no_char "," s = true.
Proof.
  unfold no_char. induction s as [|c s IH]; simpl; [reflexivity|].
  intros [Hc Hs]%andb_true_iff.
  destruct (digit_not_special c Hc) as (_ & -> & _). simpl. exact (IH Hs).
Qed.

Lemma lstrip_digits s : string_forall is_digit s = true → lstrip s = s.
Proof.
  destruct s as [|c s]; simpl; [reflexivity|].
  intros [Hc _]%andb_true_iff. by destruct (digit_not_special c Hc) as (-> & _).
Qed.

Lemma rstrip_digits s : string_forall is_digit s = true → rstrip s = s.
Proof.
  induction s as [|c s IH]; simpl; [reflexivity|].
  intros [Hc Hs]%andb_true_iff. rewrite (IH Hs).
  destruct (digit_not_special c Hc) as (-> & _). by destruct s.
Qed.

Lemma scan_digits_digits pos acc s :
  string_forall is_digit s = true →
  s ≠ EmptyString ∨ pos = AfterDigit →
  scan_digits pos acc s = Some (decimal_from acc s).
Proof.
  revert pos acc. induction s as [|c s IH]; intros pos acc Hs Hpos; simpl.
  - destruct Hpos as [Hne | ->]; [done | reflexivity].
  - simpl in Hs. apply andb_true_iff in Hs as [Hc Hs].
    destruct (digit_not_special c Hc) as (_ & _ & -> & _).
    apply IH; [exact Hs | by right].
Qed.

(** [int] of a number of the size grammar is the number it denotes. *)
Lemma py_int_number s : is_number s = true → py_int s = Return (decimal s).
Proof.
  unfold is_number. intros [Hne Hs]%andb_true_iff.
  unfold py_int. rewrite (lstrip_digits s Hs), (rstrip_digits s Hs).
  destruct s as [|c s]; [discriminate|].
  assert (Hc : is_digit c = true) by (simpl in Hs; by apply andb_true_iff in Hs as [? _]).
  destruct (digit_not_special c Hc) as (_ & _ & _ & Hm & Hp).
  assert (Hscan : scan_digits AtStart 0 (String c s) = Some (decimal (String c s)))
    by (apply scan_digits_digits; [exact Hs | by left]).
  destruct c as [[] [] [] [] [] [] [] []]; try (by rewrite Hscan); congruence.
Qed.

(** A string whose first character is no white space, no sign and no
    digit is refused by [int]. *)
Lemma py_int_bad_first c s :
  is_space c = false → is_digit c = false →
  c ≠ "+"%char → c ≠ "-"%char →
  py_int (String c s) = Raise ValueError.
Proof.
  intros Hsp Hd Hp Hm. unfold py_int. simpl lstrip. rewrite Hsp.
  assert (Hr : ∃ r, rstrip (String c s) = String c r).
  { simpl. rewrite Hsp. destruct (rstrip s); eauto. }
  destruct Hr as [r ->].
  assert (Hscan : scan_digits AtStart 0 (String c r) = None).
  { simpl. unfold digit_val. unfold is_digit in Hd. rewrite Hd.
    by destruct (Ascii.eqb c "_"). }
  destruct c as [[] [] [] [] [] [] [] []]; try (by rewrite Hscan); congruence.
Qed.

(** * The image endpoint *)

Section Image.

Context (E : Externals).

Lemma startswith_char c x s :
  startswith (String c EmptyString) (String x s) = bool_decide (c = x).
Proof.
  unfold startswith. simpl.
  destruct (ascii_dec c x); destruct s; case_bool_decide; simpl; congruence.
Qed.

Lemma not_full_max_trailing p : p +:+ "," ≠ "full" ∧ p +:+ "," ≠ "max".
Proof.
  split; intros Heq;
    pose proof (endswith_app "," p) as Hend; rewrite Heq in Hend;
    discriminate.
Qed.

Lemma not_full_max_leading p : "," +:+ p ≠ "full" ∧ "," +:+ p ≠ "max".
Proof. split; discriminate. Qed.

Lemma image_query_width fmt p :
  p ≠ EmptyString → no_char "," p = true →
  image_query E fmt (p +:+ ",")
  = w ← py_int p; mret (<[ "width" := VInt w ]> ({[ "format_" := mime_type E fmt ]} : Dict)).
Proof.
  intros Hp Hno. unfold image_query.
  rewrite bool_decide_eq_true_2 by apply not_full_max_trailing.
  rewrite (endswith_app "," p), (split_app "," p EmptyString Hno).
  simpl split. rewrite filter_cons_True by exact Hp.
  reflexivity.
Qed.

Lemma image_query_height fmt p :
  p ≠ EmptyString → no_char "," p = true →
  image_query E fmt ("," +:+ p)
  = h ← py_int p; mret (<[ "height" := VInt h ]> ({[ "format_" := mime_type E fmt ]} : Dict)).
Proof.
  intros Hp Hno. unfold image_query.
  rewrite bool_decide_eq_true_2 by apply not_full_max_leading.
  change ("," +:+ p) with (String "," p).
  rewrite (endswith_char_cons "," "," p Hp), (endswith_no_char "," p Hno).
  rewrite startswith_char, bool_decide_eq_true_2 by reflexivity.
  change (split "," (String "," p)) with (EmptyString :: split "," p).
  rewrite (split_no_sep "," p Hno).
  rewrite filter_cons_False by (intros H; by apply H).
  rewrite filter_cons_True by exact Hp.
  reflexivity.
Qed.

(** C8. The query built for a well-formed size: [full] and [max] add
    nothing to [format_]; [w,] adds the width [w] only; [,h] adds the
    height [h] only; [w,h] adds both. *)
Theorem size_grammar fmt :
  let base : Dict := {[ "format_" := mime_type E fmt ]} in
  image_query E fmt "full" = Return base
  ∧ image_query E fmt "max" = Return base
  ∧ (∀ w, is_number w = true →
       image_query E fmt (w +:+ ",")
       = Return (<[ "width" := VInt (decimal w) ]> base))
  ∧ (∀ h, is_number h = true →
       image_query E fmt ("," +:+ h)
       = Return (<[ "height" := VInt (decimal h) ]> base))
  ∧ (∀ w h, is_number w = true → is_number h = true →
       image_query E fmt (w +:+ "," +:+ h)
       = Return (<[ "height" := VInt (decimal h) ]>
                   (<[ "width" := VInt (decimal w) ]> base))).
Proof.
  intros base. split; [reflexivity|]. split; [reflexivity|].
  assert (Hnum : ∀ s, is_number s = true →
            s ≠ EmptyString ∧ string_forall is_digit s = true
            ∧ no_char "," s = true).
  { intros s [Hne Hs]%andb_true_iff. split; [by destruct s|].
    split; [exact Hs | by apply digits_no_comma]. }
  split; [|split].
  - intros w Hw. destruct (Hnum w Hw) as (Hne & _ & Hno).
    rewrite (image_query_width fmt w Hne Hno), (py_int_number w Hw).
    reflexivity.
  - intros h Hh. destruct (Hnum h Hh) as (Hne & _ & Hno).
    rewrite (image_query_height fmt h Hne Hno), (py_int_number h Hh).
    reflexivity.
  - intros w h Hw Hh.
    destruct (Hnum w Hw) as (Hwne & Hwd & Hwno).
    destruct (Hnum h Hh) as (Hhne & Hhd & Hhno).
    unfold image_query.
    assert (Hend : endswith "," (w +:+ "," +:+ h) = false).
    { rewrite <- string_app_assoc.
      rewrite (endswith_char_app "," (w +:+ ",") h Hhne).
      by apply endswith_no_char. }
    assert (Hstart : startswith "," (w +:+ "," +:+ h) = false).
    { destruct w as [|c w]; [done|]. rewrite string_app_cons.
      simpl in Hwd. apply andb_true_iff in Hwd as [Hc _].
      destruct (digit_not_special c Hc) as (_ & Hcomma & _).
      rewrite startswith_char. apply bool_decide_eq_false_2.
      intros <-. discriminate. }
    rewrite bool_decide_eq_true_2.
    2: { split; intros Heq; rewrite Heq in Hstart, Hend; 
         destruct w as [|c w]; try done;
         rewrite string_app_cons in Heq; injection Heq as -> Heq;
         discriminate. }
    rewrite Hend, Hstart.
    change (w +:+ "," +:+ h) with (w +:+ String "," h).
    rewrite (split_app "," w h Hwno), (split_no_sep "," h Hhno).
    rewrite filter_cons_True by exact Hwne.
    rewrite filter_cons_True by exact Hhne.
    rewrite filter_nil. simpl.
    rewrite (py_int_number w Hw). simpl.
    rewrite (py_int_number h Hh). reflexivity.
Qed.

(** The parsing of the size raises nothing but [ValueError] and
    [IndexError]. *)
Lemma image_query_raises fmt size e :
  image_query E fmt size = Raise e → e = ValueError ∨ e = IndexError.
Proof.
  assert (Hint : ∀ p e', py_int p = Raise e' → e' = ValueError).
  { intros p e'. unfold py_int.
    destruct (rstrip (lstrip p)) as [|[[] [] [] [] [] [] [] []] r];
      destruct (scan_digits _ _ _); congruence. }
  assert (HmapM : ∀ ps e', mapM py_int ps = Raise e' → e' = ValueError).
  { induction ps as [|p ps IH]; intros e'; simpl; [discriminate|].
    destruct (py_int p) eqn:Hp; simpl; [|intros [= <-]; by eapply Hint].
    destruct (mapM py_int ps); simpl; [discriminate|].
    intros [= <-]. by apply IH. }
  unfold image_query. case_bool_decide; [|discriminate].
  destruct (endswith "," size).
  { destruct (filter _ _) as [|p ps]; [intros [= <-]; by right|].
    destruct (py_int p) eqn:Hp; simpl; [discriminate|].
    intros [= <-]. left. by eapply Hint. }
  destruct (startswith "," size).
  { destruct (filter _ _) as [|p ps]; [intros [= <-]; by right|].
    destruct (py_int p) eqn:Hp; simpl; [discriminate|].
    intros [= <-]. left. by eapply Hint. }
  destruct (mapM py_int _) as [ints|e'] eqn:Hm; simpl.
  - destruct ints as [|? [|? [|? ?]]]; try discriminate;
      intros [= <-]; by left.
  - intros [= <-]. left. by eapply HmapM.
Qed.

(** C7. A request outside the supported subset is answered 501 whatever
    the image table holds. Inside it, an unknown image is answered 404;
    for a known image whose size parses, the answer is a 303 redirect to
    the URL the image resolves to, and 501 when it resolves to none.
    The subset is: region [full], rotation [0], quality [default] or
    [native]. *)
Theorem get_image_support db image_id region size rotation quality fmt :
  let resp := serve_iiif
    (get_image E db image_id region size rotation quality fmt) in
  (not_supported region rotation quality = true ↔
     region ≠ "full" ∨ rotation ≠ "0"
     ∨ (quality ≠ "default" ∧ quality ≠ "native"))
  ∧ (not_supported region rotation quality = true →
       resp_status resp = 501
       ∧ ∀ db', serve_iiif
           (get_image E db' image_id region size rotation quality fmt) = resp)
  ∧ (not_supported region rotation quality = false →
       match db !! image_id with
       | None => resp_status resp = 404
       | Some img =>
           ∀ query, image_query E fmt size = Return query →
             match get_image_url E img query with
             | Some url =>
                 resp_status resp = 303
                 ∧ resp_headers resp !! "Location" = Some url
             | None => resp_status resp = 501
             end
       end).
Proof.
  intros resp. subst resp. split; [|split].
  - unfold not_supported.
    rewrite !orb_true_iff, negb_true_iff, orb_false_iff.
    rewrite !bool_decide_eq_true, !bool_decide_eq_false. tauto.
  - intros Hns. unfold get_image. rewrite Hns. split; [reflexivity|].
    intros db'. reflexivity.
  - intros Hs. unfold get_image. rewrite Hs.
    destruct (db !! image_id) as [img|]; [|reflexivity].
    intros query ->. simpl.
    destruct (get_image_url E img query); simpl; [|reflexivity].
    split; [reflexivity|]. rewrite lookup_insert_ne by done.
    apply lookup_singleton_eq.
Qed.

(** C9 as amended. For a supported request on a known image, no error
    of the size parsing is handled: whenever it raises, which it does
    with [ValueError] or [IndexError], the exception leaves the view and
    the answer is 500. It raises in particular for a size [p,] or [,p]
    whose component [p] is refused by [int]. *)
Theorem malformed_size_unhandled db image_id region size rotation quality fmt img :
  not_supported region rotation quality = false →
  db !! image_id = Some img →
  (∀ e, image_query E fmt size = Raise e →
     (e = ValueError ∨ e = IndexError)
     ∧ get_image E db image_id region size rotation quality fmt = Raise e
     ∧ resp_status (serve_iiif
         (get_image E db image_id region size rotation quality fmt)) = 500)
  ∧ (∀ p, size = p +:+ "," ∨ size = "," +:+ p →
       p ≠ EmptyString → no_char "," p = true →
       py_int p = Raise ValueError →
       image_query E fmt size = Raise ValueError).
Proof.
  intros Hs Hdb. split.
  - intros e He. pose proof (image_query_raises _ _ _ He) as Hkind.
    split; [exact Hkind|].
    unfold get_image. rewrite Hs, Hdb, He. simpl.
    split; [reflexivity|]. by destruct Hkind as [-> | ->].
  - intros p [-> | ->] Hp Hno Hint.
    + rewrite (image_query_width fmt p Hp Hno), Hint. reflexivity.
    + rewrite (image_query_height fmt p Hp Hno), Hint. reflexivity.
Qed.

End Image.

Lemma size_grammar_witness :
  image_query Sample.E "jpg" "300,"
  = Return {[ "format_" := VStr "image/jpeg"; "width" := VInt 300 ]}
  ∧ image_query Sample.E "jpg" ",150"
    = Return {[ "format_" := VStr "image/jpeg"; "height" := VInt 150 ]}
  ∧ image_query Sample.E "jpg" "300,150"
    = Return {[ "format_" := VStr "image/jpeg"; "width" := VInt 300;
                "height" := VInt 150 ]}
  ∧ image_query Sample.E "jpg" "max"
    = Return {[ "format_" := VStr "image/jpeg" ]}.
Proof.
  destruct (size_grammar Sample.E "jpg") as (_ & Hmax & Hw & Hh & Hwh).
  split; [exact (Hw "300" eq_refl)|].
  split; [exact (Hh "150" eq_refl)|].
  split; [exact (Hwh "300" "150" eq_refl eq_refl) | exact Hmax].
Defined.

Lemma get_image_support_witness :
  resp_status (serve_iiif
    (get_image Sample.E Sample.images "img1" "100,100,50,50" "max" "0"
       "default" "jpg")) = 501
  ∧ resp_status (serve_iiif
      (get_image Sample.E Sample.images "nope" "full" "max" "0" "native"
         "jpg")) = 404
  ∧ resp_status (serve_iiif
      (get_image Sample.E Sample.images "img1" "full" "300," "0" "default"
         "jpg")) = 303
  ∧ resp_status (serve_iiif
      (get_image Sample.E Sample.images "orphan" "full" "300," "0" "default"
         "jpg")) = 501.
Proof.
  split; [|split; [|split]].
  - apply (get_image_support Sample.E Sample.images "img1" "100,100,50,50"
             "max" "0" "default" "jpg"). reflexivity.
  - exact (proj2 (proj2 (get_image_support Sample.E Sample.images "nope"
             "full" "max" "0" "native" "jpg")) eq_refl).
  - exact (proj1 (proj2 (proj2 (get_image_support Sample.E Sample.images
             "img1" "full" "300," "0" "default" "jpg")) eq_refl _ eq_refl)).
  - exact (proj2 (proj2 (get_image_support Sample.E Sample.images "orphan"
             "full" "300," "0" "default" "jpg")) eq_refl _ eq_refl).
Defined.

Lemma malformed_size_unhandled_witness :
  image_query Sample.E "jpg" "abc," = Raise ValueError
  ∧ resp_status (serve_iiif
      (get_image Sample.E Sample.images "img1" "full" "abc," "0" "default"
         "jpg")) = 500.
Proof.
  destruct (malformed_size_unhandled Sample.E Sample.images "img1" "full"
              "abc," "0" "default" "jpg" _ eq_refl eq_refl) as [Hraise Hp].
  assert (H : image_query Sample.E "jpg" "abc," = Raise ValueError).
  { apply (Hp "abc"); [by left | discriminate | reflexivity | reflexivity]. }
  split; [exact H|]. apply (Hraise ValueError H).
Defined.

(** C9 as stated fails: a size with a component that is no number gets
    a 500, which is no 4xx. *)
Lemma malformed_size_is_server_error :
  let resp := serve_iiif
    (get_image Sample.E Sample.images "img1" "full" "abc," "0" "default"
       "jpg") in
  resp_status resp = 500 ∧ ¬ (400 <= resp_status resp < 500).
Proof. vm_compute. split; [reflexivity|]. intros [_ H]. discriminate H. Qed.

(** * More on the job status *)

Section StatusFields.

Context (E : Externals).

(** X1. Every entry of the metadata of a job that is not failed is in
    its status under the same key, [id] and [status] included: the
    metadata is merged after these two are set. Only [position] and
    [result] are set after the merge. *)
Theorem status_carries_metadata w j k v :
  get_status j ≠ "failed" →
  job_meta j !! k = Some v →
  k ≠ "position" → k ≠ "result" →
  ∃ out, _get_job_status E w (PJob j) = Return (Some out)
         ∧ out !! k = Some v.
Proof.
  intros Hst Hk Hpos Hres. unfold _get_job_status; simpl.
  eexists; split; [reflexivity|].
  rewrite (bool_decide_eq_true_2 (get_status j ≠ "failed")) by exact Hst.
  rewrite (bool_decide_eq_false_2 (get_status j = "failed")) by exact Hst.
  assert (Hmerged : dict_update {[ "id" := VStr (job_id j);
                                   "status" := VStr (get_status j) ]}
                      (job_meta j) !! k = Some v).
  { unfold dict_update. apply lookup_union_Some_l. exact Hk. }
  repeat case_bool_decide; rewrite ?lookup_insert_ne by done; exact Hmerged.
Qed.

(** X2. The fields of a status: [id] and [status]; for a failed job
    [traceback] and nothing else; for any other job the keys of its
    metadata, with [position] when it is queued and [result] when it is
    finished. *)
Theorem status_fields w j :
  ∃ out, _get_job_status E w (PJob j) = Return (Some out)
    ∧ dom out
      = {[ "id"; "status" ]}
        ∪ (if bool_decide (get_status j = "failed") then {[ "traceback" ]}
           else dom (job_meta j)
                ∪ (if bool_decide (get_status j = "queued")
                   then {[ "position" ]}
                   else if bool_decide (get_status j = "finished")
                   then {[ "result" ]}
                   else ∅)).
Proof.
  unfold _get_job_status; simpl. eexists; split; [reflexivity|].
  unfold dict_update.
  repeat case_bool_decide; try congruence;
    rewrite ?dom_insert_L, ?dom_union_L, ?dom_insert_L, ?dom_singleton_L;
    apply set_eq; intros x; set_unfold; tauto.
Qed.

End StatusFields.

Lemma status_carries_metadata_witness :
  ∃ out, _get_job_status Sample.E Sample.rq
           (PJob {| job_id := "job-3";
                    job_hash := Sample.hash "started"
                      {[ "label" := VStr "Codex"; "status" := VStr "done" ]} |})
         = Return (Some out)
         ∧ out !! "status" = Some (VStr "done").
Proof.
  apply (status_carries_metadata Sample.E Sample.rq
           {| job_id := "job-3";
              job_hash := Sample.hash "started"
                {[ "label" := VStr "Codex"; "status" := VStr "done" ]} |}
           "status" (VStr "done")).
  - vm_compute. discriminate.
  - vm_compute. reflexivity.
  - discriminate.
  - discriminate.
Defined.

(** * The task list *)

Lemma mapM_Return_lookup {A B} (f : A → Outcome B) (l : list A) :
  (∀ x, x ∈ l → ∃ y, f x = Return y) →
  ∃ ys, mapM f l = Return ys
    ∧ length ys = length l
    ∧ ∀ i x, l !! i = Some x → ∃ y, ys !! i = Some y ∧ f x = Return y.
Proof.
  induction l as [|a l IH]; intros Hall.
  - exists []. split; [reflexivity|]. split; [reflexivity|].
    intros i x Hi. discriminate.
  - destruct (Hall a) as [b Hb]; [by left|].
    destruct IH as (ys & Hys & Hlen & Hlook).
    { intros x Hx. apply Hall. by right. }
    exists (b :: ys). split.
    { simpl. rewrite Hb. simpl. rewrite Hys. reflexivity. }
    split; [simpl; by rewrite Hlen|].
    intros [|i] x Hi; simpl in *.
    + injection Hi as <-. by exists b.
    + by apply Hlook.
Qed.

Section TaskList.

Context (E : Externals).

(** The [position] of a queued job, as [_get_job_status] computes it. *)
Lemma queued_status_position w j :
  get_status j = "queued" →
  ∃ out, _get_job_status E w (PJob j) = Return (Some out)
    ∧ out !! "position"
      = Some (match list_index (job_id j) (q_job_ids (queue w)) with
              | Some i => VInt (Z.of_nat i)
              | None => VNone
              end).
Proof.
  intros Hst. unfold _get_job_status; simpl. rewrite Hst; simpl.
  eexists; split; [reflexivity|]. by rewrite lookup_insert_eq.
Qed.

(** X3. When the ids of the queue are distinct and each belongs to a
    queued job, the task list has one status per id, in the order of the
    queue, and the status at index [i] has position [i]. *)
Theorem listed_positions w :
  NoDup (q_job_ids (queue w)) →
  (∀ id, id ∈ q_job_ids (queue w) →
     ∃ h, q_jobs (queue w) !! id = Some h ∧ h_status h = "queued") →
  ∃ tasks, api_list_tasks E w = Return tasks
    ∧ length tasks = length (q_job_ids (queue w))
    ∧ ∀ (i : nat) id, q_job_ids (queue w) !! i = Some id →
        ∃ out, tasks !! i = Some (Some out)
          ∧ out !! "position" = Some (VInt (Z.of_nat i)).
Proof.
  intros Hnodup Hjobs. unfold api_list_tasks, get_job_ids.
  destruct (mapM_Return_lookup
              (fun job_id => _get_job_status E w (PStr job_id))
              (q_job_ids (queue w))) as (tasks & Htasks & Hlen & Hlook).
  { intros id Hid. destruct (Hjobs id Hid) as (h & Hh & _).
    rewrite (get_job_status_by_id E _ _ _ Hh).
    destruct (get_job_status_job E w {| job_id := id; job_hash := h |})
      as (out & -> & _). by eexists. }
  exists tasks. split; [exact Htasks|]. split; [exact Hlen|].
  intros i id Hi. destruct (Hlook i id Hi) as (y & Hy & Hst).
  destruct (Hjobs id) as (h & Hh & Hq); [by eapply list_elem_of_lookup_2|].
  rewrite (get_job_status_by_id E _ _ _ Hh) in Hst.
  destruct (queued_status_position w {| job_id := id; job_hash := h |} Hq)
    as (out & Hout & Hpos).
  rewrite Hout in Hst. injection Hst as <-.
  exists out. split; [exact Hy|]. rewrite Hpos. simpl.
  rewrite (list_index_first id _ i Hi); [reflexivity|].
  intros k Hk Hk'. assert (k = i) by (eapply NoDup_lookup; eauto). lia.
Qed.

(** X4. When RQ answers [None] to a fetch of [None], the task list never
    fails; it has one entry per id of the queue, and the entry is null
    exactly for the ids whose job the queue can no longer fetch. *)
Theorem listed_missing_job_is_null w :
  fetch_job_none E = None →
  ∃ tasks, api_list_tasks E w = Return tasks
    ∧ length tasks = length (q_job_ids (queue w))
    ∧ ∀ (i : nat) id, q_job_ids (queue w) !! i = Some id →
        (tasks !! i = Some None ↔ q_jobs (queue w) !! id = None).
Proof.
  intros Hnone. unfold api_list_tasks, get_job_ids.
  assert (Hstat : ∀ id,
    (q_jobs (queue w) !! id = None
     ∧ _get_job_status E w (PStr id) = Return None)
    ∨ (∃ h out, q_jobs (queue w) !! id = Some h
         ∧ _get_job_status E w (PStr id) = Return (Some out))).
  { intros id. destruct (q_jobs (queue w) !! id) as [h|] eqn:Hid.
    - right. rewrite (get_job_status_by_id E _ _ _ Hid).
      destruct (get_job_status_job E w {| job_id := id; job_hash := h |})
        as (out & -> & _). by exists h, out.
    - left. split; [reflexivity|].
      rewrite (get_job_status_unknown E _ _ Hid), Hnone. reflexivity. }
  destruct (mapM_Return_lookup
              (fun job_id => _get_job_status E w (PStr job_id))
              (q_job_ids (queue w))) as (tasks & Htasks & Hlen & Hlook).
  { intros id _. destruct (Hstat id) as [[_ ->] | (h & out & _ & ->)];
      by eexists. }
  exists tasks. split; [exact Htasks|]. split; [exact Hlen|].
  intros i id Hi. destruct (Hlook i id Hi) as (y & Hy & Hst).
  rewrite Hy.
  destruct (Hstat id) as [[Hid Hs] | (h & out & Hid & Hs)];
    rewrite Hs in Hst; injection Hst as <-; rewrite Hid.
  - split; reflexivity || by intros.
  - split; discriminate.
Qed.

End TaskList.

Lemma listed_positions_witness :
  ∃ tasks, api_list_tasks Sample.E Sample.rq = Return tasks
    ∧ length tasks = 2%nat
    ∧ ∃ out, tasks !! 1%nat = Some (Some out)
        ∧ out !! "position" = Some (VInt 1).
Proof.
  destruct (listed_positions Sample.E Sample.rq) as (tasks & Ht & Hlen & Hpos).
  - refine (bool_decide_unpack _ _). vm_compute. exact I.
  - intros id Hid. exists (Sample.hash "queued" Sample.basic_meta).
    apply elem_of_cons in Hid as [-> | Hid]; [split; reflexivity|].
    apply elem_of_cons in Hid as [-> | Hid]; [split; reflexivity|].
    by apply elem_of_nil in Hid.
  - exists tasks. split; [exact Ht|]. split; [exact Hlen|].
    exact (Hpos 1%nat "job-2" eq_refl).
Defined.

Lemma listed_missing_job_is_null_witness :
  ∃ tasks,
    api_list_tasks Sample.E
      {| queue := {| q_jobs := ∅; q_job_ids := ["job-4"] |};
         failed_queue := Sample.empty_queue |} = Return tasks
    ∧ tasks !! 0%nat = Some None.
Proof.
  destruct (listed_missing_job_is_null Sample.E
              {| queue := {| q_jobs := ∅; q_job_ids := ["job-4"] |};
                 failed_queue := Sample.empty_queue |} eq_refl)
    as (tasks & Ht & _ & Hnull).
  exists tasks. split; [exact Ht|].
  apply (Hnull 0%nat "job-4" eq_refl). reflexivity.
Defined.

(** * More on the live stream *)

Lemma split_app_pieces sep a b d :
  ∃ p ps, split sep (a +:+ String sep b) = p :: ps
    ∧ ps ≠ [] ∧ List.last ps d = List.last (split sep b) d.
Proof.
  assert (Hne : ∀ s, split sep s ≠ []).
  { intros s. destruct s as [|c s]; simpl; [done|].
    destruct (Ascii.eqb c sep); [done|]. by destruct (split sep s). }
  induction a as [|c a (p & ps & Hs & Hps & Hlast)].
  - rewrite string_app_nil. simpl. rewrite Ascii.eqb_refl.
    exists EmptyString, (split sep b). by repeat split.
  - rewrite string_app_cons. simpl. rewrite Hs.
    destruct (Ascii.eqb c sep).
    + exists EmptyString, (p :: ps). split; [reflexivity|]. split; [done|].
      rewrite <- Hlast. by destruct ps.
    + exists (String c p), ps. by repeat split.
Qed.

Lemma last_split_app sep a b d :
  List.last (split sep (a +:+ String sep b)) d = List.last (split sep b) d.
Proof.
  destruct (split_app_pieces sep a b d) as (p & ps & -> & Hps & <-).
  by destruct ps.
Qed.

(** X8. The id the loop reads off a channel name is what follows its
    last colon: for a key [prefix:id] with no colon in [id], it is
    [id]. *)
Theorem channel_id_of_key prefix id :
  no_char ":" id = true →
  channel_id (prefix +:+ ":" +:+ id) = id.
Proof.
  intros Hid. unfold channel_id.
  change (prefix +:+ ":" +:+ id) with (prefix +:+ String ":" id).
  rewrite last_split_app, (split_no_sep ":" id Hid). reflexivity.
Qed.

Section StreamMore.

Context (E : Externals).

(** X5. [sse_stream] answers 404 exactly for an id that neither queue
    can fetch; for any other id it returns the generator. *)
Theorem sse_stream_known w task_id :
  (q_jobs (queue w) !! task_id = None
   ∧ q_jobs (failed_queue w) !! task_id = None
   ∧ sse_stream E w task_id = abort 404)
  ∨ ((is_Some (q_jobs (queue w) !! task_id)
      ∨ is_Some (q_jobs (failed_queue w) !! task_id))
     ∧ sse_stream E w task_id = Return (gen E task_id)).
Proof.
  unfold sse_stream; simpl.
  destruct (q_jobs (queue w) !! task_id) as [h|] eqn:Hq; simpl.
  - right. split; [left; by eexists | reflexivity].
  - destruct (q_jobs (failed_queue w) !! task_id) as [h|] eqn:Hf; simpl.
    + right. split; [right; by eexists | reflexivity].
    + left. by repeat split.
Qed.

(** X6. The stream of a job that the active queue cannot fetch, as is the
    case of a job in the failed queue alone, yields no event at all, when
    RQ answers [None] to a fetch of [None]: each recomputed status is
    [None], like the initial [last_status]. *)
Theorem stream_of_unfetched_job_is_silent task_id msgs :
  fetch_job_none E = None →
  Forall (fun m => q_jobs (queue (msg_rq m)) !! task_id = None) msgs →
  (gen E task_id msgs).1 = [].
Proof.
  intros Hnone Hall. unfold gen.
  assert (Hgen : ∀ st, last_status st = None →
            (gen_from E task_id st msgs).1 = []).
  { induction Hall as [|m rest Hm _ IH]; intros st Hst; [reflexivity|].
    simpl. unfold gen_turn. rewrite Hst.
    case_bool_decide; simpl; [reflexivity|].
    rewrite (get_job_status_unknown E _ _ Hm), Hnone.
    rewrite bool_decide_eq_true_2 by reflexivity.
    apply IH. reflexivity. }
  apply Hgen. reflexivity.
Qed.

(** X7. While the notifications are for the key the loop saw last, and
    the last status yielded is not [started], nothing is recomputed and
    nothing yielded, whatever happened to the job meanwhile. *)
Theorem same_key_notifications_are_skipped task_id st d v msgs :
  last_status st = Some d →
  d !! "status" = Some v →
  v ≠ VStr "started" →
  Forall (fun m => Some (channel_id (msg_channel m)) = last_id st) msgs →
  gen_from E task_id st msgs = ([], Listening st).
Proof.
  intros Hst Hd Hv Hall.
  induction Hall as [|m rest Hm _ IH]; [reflexivity|].
  simpl. unfold gen_turn.
  rewrite (bool_decide_eq_true_2 _ Hm), Hst. simpl. rewrite Hd. simpl.
  rewrite (bool_decide_eq_true_2 _ Hv). exact IH.
Qed.

(** X9. Every status the stream yields was the status of the job when
    one of the notifications was handled, and there are no more events
    than notifications. *)
Theorem stream_events_were_observed task_id msgs :
  (length (gen E task_id msgs).1 ≤ length msgs)%nat
  ∧ ∀ ev, ev ∈ (gen E task_id msgs).1 →
      ∃ m, m ∈ msgs
        ∧ _get_job_status E (msg_rq m) (PStr task_id) = Return (sse_data ev).
Proof.
  unfold gen. generalize gen_init as st.
  induction msgs as [|m rest IH]; intros st; simpl.
  - split; [lia|]. intros ev Hev. by apply elem_of_nil in Hev.
  - pose proof (gen_turn_spec E task_id st m) as Hturn.
    destruct (gen_turn E task_id st m) as [st'|ev0 st'|e]; simpl.
    + destruct (IH st') as [Hlen Hobs]. split; [lia|].
      intros ev Hev. destruct (Hobs ev Hev) as (m' & Hm' & Hs).
      exists m'. split; [by right | exact Hs].
    + destruct (IH st') as [Hlen Hobs].
      destruct (gen_from E task_id st' rest) as [evs fin]; simpl in *.
      split; [lia|]. intros ev Hev.
      apply elem_of_cons in Hev as [-> | Hev].
      * exists m. split; [by left | apply Hturn].
      * destruct (Hobs ev Hev) as (m' & Hm' & Hs).
        exists m'. split; [by right | exact Hs].
    + split; [lia|]. intros ev Hev. by apply elem_of_nil in Hev.
Qed.

End StreamMore.

Lemma channel_id_of_key_witness :
  channel_id "__keyspace@0__:rq:job:job-1" = "job-1".
Proof.
  apply (channel_id_of_key "__keyspace@0__:rq:job" "job-1"). reflexivity.
Defined.

Lemma stream_of_unfetched_job_is_silent_witness :
  is_Some (q_jobs (failed_queue Sample.rq) !! "job-0")
  ∧ (gen Sample.E "job-0"
       [Sample.msg "job-1" Sample.rq; Sample.msg "job-2" Sample.rq]).1 = [].
Proof.
  split; [eexists; vm_compute; reflexivity|].
  apply (stream_of_unfetched_job_is_silent Sample.E "job-0"); [reflexivity|].
  repeat constructor.
Defined.

Lemma same_key_notifications_are_skipped_witness :
  gen_from Sample.E "job-1"
    {| last_status := Some {[ "id" := VStr "job-1"; "status" := VStr "queued" ]};
       last_id := Some "job-1" |}
    [Sample.msg "job-1" Sample.finished_rq]
  = ([], Listening
       {| last_status := Some {[ "id" := VStr "job-1"; "status" := VStr "queued" ]};
          last_id := Some "job-1" |}).
Proof.
  apply (same_key_notifications_are_skipped Sample.E "job-1" _
           {[ "id" := VStr "job-1"; "status" := VStr "queued" ]}
           (VStr "queued")).
  - reflexivity.
  - vm_compute. reflexivity.
  - discriminate.
  - repeat constructor.
Defined.

(** * More on the import endpoint *)

Lemma list_index_app_fresh x (l : list string) :
  x ∉ l → list_index x (l ++ [x]) = Some (length l).
Proof.
  induction l as [|y l IH]; intros Hx; simpl.
  - by rewrite decide_True.
  - apply not_elem_of_cons in Hx as [Hne Hx].
    rewrite decide_False by exact Hne. by rewrite (IH Hx).
Qed.

Section ImportMore.

Context (E : Externals).

(** X10. The basic information of a document that can be read and has a
    logo and an attribution: the URL as given, the label, the first JPEG
    file as thumbnail, the first JPG file when there is no JPEG file and
    null when there is neither, and the two attribution entries; no other
    key. *)
Theorem basic_info_thumbnail url doc logo owner :
  read_mets E url = Return doc →
  doc_metadata doc !! "logo" = Some logo →
  doc_metadata doc !! "attribution" = Some owner →
  _get_basic_info E (Some url)
  = Return {[ "metsurl" := VStr url;
              "label" := make_label E (doc_metadata doc);
              "thumbnail" := match doc_jpeg doc, doc_jpg doc with
                             | u :: _, _ => VStr u
                             | [], u :: _ => VStr u
                             | [], [] => VNone
                             end;
              "attribution" := VDict {[ "logo" := logo; "owner" := owner ]} ]}.
Proof.
  intros Hdoc Hlogo Howner. unfold _get_basic_info.
  rewrite Hdoc; simpl. rewrite Hlogo, Howner; simpl.
  destruct (doc_jpeg doc), (doc_jpg doc); reflexivity.
Qed.

(** X11. A document that can be fetched and parsed but has no logo, or
    no attribution, in its metadata is not imported: the probe succeeds,
    [_get_basic_info] raises [KeyError], no job is enqueued and the
    answer is 500. *)
Theorem import_without_logo_fails w url c doc :
  re_match_dfgviewer url = false →
  http_head E url = Return c → response_ok c = true →
  read_mets E url = Return doc →
  doc_metadata doc !! "logo" = None
  ∨ doc_metadata doc !! "attribution" = None →
  let r := api_import E w url in
  run_outcome r = Raise KeyError
  ∧ run_rq r = w
  ∧ resp_status (serve_api E (run_outcome r)) = 500.
Proof.
  intros Hre Hhead Hok Hdoc Hmissing r.
  destruct (api_import_run E w url) as [_ Hrun]. fold r in Hrun.
  rewrite Hre in Hrun. cbv iota in Hrun.
  change (requests_head E (Some url)) with (http_head E url) in Hrun.
  rewrite Hhead, Hok in Hrun.
  assert (Hinfo : _get_basic_info E (Some url) = Raise KeyError).
  { unfold _get_basic_info. rewrite Hdoc; simpl.
    destruct Hmissing as [-> | Hattr]; [reflexivity|].
    destruct (doc_metadata doc !! "logo"); simpl; [|reflexivity].
    by rewrite Hattr. }
  rewrite Hinfo in Hrun. destruct Hrun as [Ho Hw].
  split; [exact Ho|]. split; [exact Hw|]. by rewrite Ho.
Qed.

(** X12. The body of the 202 answer, for a URL taken as given whose
    probe and basic information succeed, when the new job's id is not
    yet in the queue: the job's id, the status [queued], the URL under
    [metsurl], and as position the number of jobs that were in the queue
    before. *)
Theorem import_accepted_body w url c meta :
  re_match_dfgviewer url = false →
  http_head E url = Return c → response_ok c = true →
  _get_basic_info E (Some url) = Return meta →
  new_job_id E w ∉ q_job_ids (queue w) →
  ∃ out,
    run_outcome (api_import E w url)
    = Return (with_header "Location" (status_url_for E (new_job_id E w))
                (with_status 202 (jsonify (VDict out))))
    ∧ out !! "id" = Some (VStr (new_job_id E w))
    ∧ out !! "status" = Some (VStr "queued")
    ∧ out !! "metsurl" = Some (VStr url)
    ∧ out !! "position"
      = Some (VInt (Z.of_nat (length (q_job_ids (queue w))))).
Proof.
  intros Hre Hhead Hok Hinfo Hfresh.
  destruct (api_import_run E w url) as [_ Hrun].
  rewrite Hre in Hrun. cbv iota in Hrun.
  change (requests_head E (Some url)) with (http_head E url) in Hrun.
  rewrite Hhead, Hok, Hinfo in Hrun.
  destruct Hrun as (target & out & [= <-] & Hjob & Hids & _ & Hstatus & Hout).
  exists out. split; [exact Hout|].
  rewrite (get_job_status_by_id E _ _ _ Hjob) in Hstatus.
  unfold _get_job_status in Hstatus; simpl in Hstatus.
  injection Hstatus as <-. unfold get_job_ids. rewrite Hids.
  rewrite (list_index_app_fresh _ _ Hfresh).
  assert (Hmeta : ∃ label thumb attr,
    meta = {[ "metsurl" := VStr url; "label" := label;
              "thumbnail" := thumb; "attribution" := attr ]}).
  { unfold _get_basic_info in Hinfo.
    destruct (read_mets E url) as [doc|]; simpl in Hinfo; [|discriminate].
    destruct (doc_metadata doc !! "logo"); simpl in Hinfo; [|discriminate].
    destruct (doc_metadata doc !! "attribution"); simpl in Hinfo;
      [|discriminate].
    injection Hinfo as <-. by eexists _, _, _. }
  destruct Hmeta as (label & thumb & attr & ->).
  unfold dict_update, job_meta; simpl.
  repeat split; reflexivity.
Qed.

(** X13. Whatever a run of [api_import] does, it leaves the failed
    queue, and every job of the active queue under another id than the
    new one, as they were, and it keeps the old ids, in order, at the
    front of the queue's id list. *)
Theorem import_keeps_other_jobs w url :
  let r := api_import E w url in
  failed_queue (run_rq r) = failed_queue w
  ∧ q_job_ids (queue w) `prefix_of` q_job_ids (queue (run_rq r))
  ∧ ∀ id, id ≠ new_job_id E w →
      q_jobs (queue (run_rq r)) !! id = q_jobs (queue w) !! id.
Proof.
  intros r. destruct (api_import_run E w url) as [_ Hrun]. fold r in Hrun.
  assert (Hsame : run_rq r = w →
    failed_queue (run_rq r) = failed_queue w
    ∧ q_job_ids (queue w) `prefix_of` q_job_ids (queue (run_rq r))
    ∧ ∀ id, id ≠ new_job_id E w →
        q_jobs (queue (run_rq r)) !! id = q_jobs (queue w) !! id).
  { intros ->. by repeat split. }
  destruct (requests_head E _) as [c|e]; [|apply Hsame, Hrun].
  destruct (response_ok c); [|apply Hsame, Hrun].
  destruct (_get_basic_info E _) as [meta|e]; [|apply Hsame, Hrun].
  clear Hsame Hrun. subst r. unfold api_import.
  set (m := if re_match_dfgviewer url then _ else _).
  destruct (negb _); [by repeat split|].
  destruct (_get_basic_info E m); [|by repeat split].
  simpl. split; [reflexivity|]. split; [by eexists|].
  intros id Hid. by rewrite lookup_insert_ne.
Qed.

End ImportMore.

Lemma import_without_logo_fails_witness :
  let r := api_import MoreSamples.E_bare Sample.rq Sample.mets_url in
  run_outcome r = Raise KeyError
  ∧ run_rq r = Sample.rq
  ∧ resp_status (serve_api MoreSamples.E_bare (run_outcome r)) = 500.
Proof.
  apply (import_without_logo_fails MoreSamples.E_bare Sample.rq
           Sample.mets_url 200 MoreSamples.bare_doc);
    [reflexivity | reflexivity | reflexivity | reflexivity | by left].
Defined.

Lemma basic_info_thumbnail_witness :
  _get_basic_info Sample.E (Some Sample.mets_url)
  = Return {[ "metsurl" := VStr Sample.mets_url;
              "label" := VStr "Codex";
              "thumbnail" := VStr "http://example.org/0001.jpg";
              "attribution" :=
                VDict {[ "logo" := VStr "http://example.org/logo.png";
                         "owner" := VStr "Example Library" ]} ]}.
Proof.
  exact (basic_info_thumbnail Sample.E Sample.mets_url Sample.doc
           (VStr "http://example.org/logo.png") (VStr "Example Library")
           eq_refl eq_refl eq_refl).
Defined.

Lemma import_accepted_body_witness :
  ∃ out,
    run_outcome (api_import Sample.E Sample.rq Sample.mets_url)
    = Return (with_header "Location" "http://localhost:5000/api/tasks/job-9"
                (with_status 202 (jsonify (VDict out))))
    ∧ out !! "position" = Some (VInt 2).
Proof.
  destruct (import_accepted_body Sample.E Sample.rq Sample.mets_url 200
              {[ "metsurl" := VStr Sample.mets_url;
                 "label" := VStr "Codex";
                 "thumbnail" := VStr "http://example.org/0001.jpg";
                 "attribution" :=
                   VDict {[ "logo" := VStr "http://example.org/logo.png";
                            "owner" := VStr "Example Library" ]} ]}
              eq_refl eq_refl eq_refl eq_refl)
    as (out & Hout & _ & _ & _ & Hpos).
  - vm_compute. intros H. repeat (apply elem_of_cons in H as [H|H]; [discriminate|]).
    by apply elem_of_nil in H.
  - exists out. split; [exact Hout | exact Hpos].
Defined.

(** * The DFG-Viewer pattern *)

Lemma dfgviewer_tail r :
  match strip_prefix "://dfg-viewer" r with
  | Some (String c r') =>
      negb (Ascii.eqb c newline)
      && bool_decide (is_Some (strip_prefix "de/show/" r'))
  | _ => false
  end = true
  ↔ ∃ c rest, c ≠ newline
      ∧ r = "://dfg-viewer" +:+ String c ("de/show/" +:+ rest).
Proof.
  split.
  - destruct (strip_prefix "://dfg-viewer" r) as [[|c r']|] eqn:Hp;
      try discriminate.
    intros [Hc Hrest]%andb_true_iff.
    apply bool_decide_eq_true in Hrest as [rest Hrest].
    apply strip_prefix_Some in Hp, Hrest. subst.
    exists c, rest. split; [|reflexivity].
    intros ->. rewrite Ascii.eqb_refl in Hc. discriminate.
  - intros (c & rest & Hc & ->).
    assert (Hp : strip_prefix "://dfg-viewer"
                   ("://dfg-viewer" +:+ String c ("de/show/" +:+ rest))
                 = Some (String c ("de/show/" +:+ rest)))
      by (by apply strip_prefix_Some).
    rewrite Hp. apply andb_true_iff. split.
    + apply negb_true_iff, Ascii.eqb_neq, Hc.
    + apply bool_decide_eq_true. exists rest. by apply strip_prefix_Some.
Qed.

(** X14. The URLs taken for DFG-Viewer URLs are those that start with
    [http://dfg-viewer] or [https://dfg-viewer], go on with one character
    that is no newline, any one: the dot of the pattern is not escaped,
    and then with [de/show/]. *)
Theorem dfgviewer_pattern url :
  re_match_dfgviewer url = true
  ↔ ∃ c rest, c ≠ newline
      ∧ (url = "http://dfg-viewer" +:+ String c ("de/show/" +:+ rest)
         ∨ url = "https://dfg-viewer" +:+ String c ("de/show/" +:+ rest)).
Proof.
  unfold re_match_dfgviewer. cbv zeta.
  destruct (strip_prefix "http" url) as [r|] eqn:Hp.
  - apply strip_prefix_Some in Hp. subst url.
    assert (Hs : ∀ r', r = String "s" r' →
      match strip_prefix "://dfg-viewer" r with
      | Some (String c r') =>
          negb (Ascii.eqb c newline)
          && bool_decide (is_Some (strip_prefix "de/show/" r'))
      | _ => false
      end = false) by (by intros r' ->).
    split.
    + intros H.
      assert (Hcases :
        (∃ r', r = String "s" r' ∧ (∃ c rest, c ≠ newline
            ∧ r' = "://dfg-viewer" +:+ String c ("de/show/" +:+ rest)))
        ∨ (∃ c rest, c ≠ newline
            ∧ r = "://dfg-viewer" +:+ String c ("de/show/" +:+ rest))).
      { destruct r as [|ch r']; [discriminate|].
        destruct (decide (ch = "s"%char)) as [->|Hch].
        - left. exists r'. split; [reflexivity|].
          rewrite (Hs r' eq_refl), orb_false_r in H.
          by apply dfgviewer_tail.
        - right. apply dfgviewer_tail.
          destruct ch as [[] [] [] [] [] [] [] []]; try exact H; congruence. }
      destruct Hcases as [(r' & -> & c & rest & Hc & ->)
                         | (c & rest & Hc & ->)];
        exists c, rest; (split; [exact Hc|]); [right | left]; reflexivity.
    + intros (c & rest & Hc & [Hu | Hu]).
      * assert (r = "://dfg-viewer" +:+ String c ("de/show/" +:+ rest)) as ->
          by (by injection Hu).
        assert (Ht := proj2 (dfgviewer_tail _)
                  (ex_intro _ c (ex_intro _ rest (conj Hc eq_refl)))).
        exact Ht.
      * assert (r = String "s" ("://dfg-viewer" +:+ String c ("de/show/" +:+ rest)))
          as -> by (by injection Hu).
        assert (Ht := proj2 (dfgviewer_tail _)
                  (ex_intro _ c (ex_intro _ rest (conj Hc eq_refl)))).
        rewrite Ht. reflexivity.
  - split; [discriminate|].
    intros (c & rest & _ & [-> | ->]); discriminate.
Qed.

(** * The first match *)

(** [findall] starts with the group of the leftmost match. *)
Lemma findall_leftmost at_ lit pre suf g :
  at_ suf = Some g → suf ≠ EmptyString →
  (∀ p1 p2, pre = p1 +:+ p2 → p2 ≠ EmptyString → at_ (p2 +:+ suf) = None) →
  ∃ gs, findall at_ lit 0 (pre +:+ suf) = g :: gs.
Proof.
  intros Hat Hsuf. induction pre as [|c pre IH]; intros Hpre.
  - rewrite string_app_nil. destruct suf as [|c suf]; [done|].
    simpl. rewrite Hat. by eexists.
  - rewrite string_app_cons. simpl.
    rewrite <- string_app_cons, (Hpre EmptyString (String c pre)) by done.
    apply IH. intros p1 p2 -> Hp2. by apply (Hpre (String c p1) p2).
Qed.

Lemma no_param_no_group name stop lit u :
  ¬ has_param name stop u → findall (group_at name stop) lit 0 u = [].
Proof.
  intros Hno. destruct (findall _ _ _ u) as [|g gs] eqn:Hf; [reflexivity|].
  exfalso. apply Hno.
  destruct (findall_head _ _ _ _ _ Hf) as (pre & suf & -> & Hat).
  destruct (group_at_Some _ _ _ _ Hat) as (v & rest & -> & -> & Hv & Hno' & _).
  destruct v as [|c v]; [done|].
  exists pre, c, (v +:+ rest). split.
  - rewrite !string_app_assoc, !string_app_cons. reflexivity.
  - unfold no_char in Hno'. simpl in Hno'.
    apply andb_true_iff in Hno' as [Hc _]. apply negb_true_iff in Hc.
    by apply Ascii.eqb_neq.
Qed.

Lemma no_char_app c a b :
  no_char c (a +:+ b) = true → no_char c a = true ∧ no_char c b = true.
Proof.
  unfold no_char. induction a as [|x a IH].
  - rewrite string_app_nil. by split.
  - rewrite string_app_cons. simpl.
    intros [Hx Hab]%andb_true_iff. destruct (IH Hab) as [Ha Hb].
    rewrite Hx, Ha. by split.
Qed.

(** The pattern for [tx_dlf[id]=] does not match where a non-empty
    piece without a bracket stands before the parameter. *)
Lemma tx_dlf_not_before p v :
  p ≠ EmptyString → no_char "[" p = true →
  tx_dlf_at (p +:+ "tx_dlf[id]=http" +:+ v) = None.
Proof.
  intros Hp Hno. unfold tx_dlf_at, group_at.
  assert (Hstrip : strip_prefix ("tx_dlf[id]=" +:+ "http")
                     (p +:+ "tx_dlf[id]=http" +:+ v) = None);
    [|by rewrite Hstrip].
  unfold no_char in Hno.
  destruct p as [|c1 [|c2 [|c3 [|c4 [|c5 [|c6 [|c7 p]]]]]]]; [done|..];
    rewrite ?string_app_cons, ?string_app_nil;
    cbn -[Ascii.eqb String.append] in Hno |- *;
    repeat match goal with
           | |- context [Ascii.eqb ?a ?b] =>
               destruct (Ascii.eqb_spec a b); [subst|];
               cbn -[Ascii.eqb String.append] in Hno |- *
           end;
    try reflexivity; try discriminate;
    vm_compute in Hno; discriminate.
Qed.

Section TxDlf.

Context (E : Externals).

(** X15. When the unquoted URL has no [set[mets]=] parameter and its
    first bracket is that of [tx_dlf[id]=http...], the URL extracted is
    everything from that [http] to the end of the line: parameters that
    follow, ampersands included, are part of it. *)
Theorem tx_dlf_takes_rest_of_line url pre v :
  unquote E url = pre +:+ "tx_dlf[id]=http" +:+ v →
  no_char "[" pre = true →
  v ≠ EmptyString → no_char newline v = true →
  ¬ has_param "set[mets]=" "&" (unquote E url) →
  _extract_mets_from_dfgviewer E url = Some ("http" +:+ v).
Proof.
  intros Hu Hpre Hv Hline Hset. unfold _extract_mets_from_dfgviewer.
  rewrite (no_param_no_group _ _ 10%nat _ Hset : findall set_mets_at _ _ _ = []).
  rewrite Hu.
  assert (Hat : tx_dlf_at ("tx_dlf[id]=http" +:+ v) = Some ("http" +:+ v)).
  { unfold tx_dlf_at, group_at.
    assert (Hstrip : strip_prefix ("tx_dlf[id]=" +:+ "http")
                       ("tx_dlf[id]=http" +:+ v) = Some v)
      by (by apply strip_prefix_Some).
    rewrite Hstrip.
    assert (Htake : take_while (fun c => negb (Ascii.eqb c newline)) v = v).
    { clear -Hline. unfold no_char in Hline.
      induction v as [|c v IH]; [reflexivity|]. simpl in *.
      apply andb_true_iff in Hline as [-> Hv]. by rewrite (IH Hv). }
    rewrite Htake. by destruct v. }
  destruct (findall_leftmost tx_dlf_at 11%nat pre _ _ Hat) as [gs ->];
    [by destruct v | | reflexivity].
  intros p1 p2 -> Hp2. apply tx_dlf_not_before; [exact Hp2|].
  by apply no_char_app in Hpre as [_ ?].
Qed.

End TxDlf.

Lemma tx_dlf_takes_rest_of_line_witness :
  _extract_mets_from_dfgviewer Sample.E
    "https://dfg-viewer.de/show/?tx_dlf[id]=http%3A%2F%2Fexample.org%2Fmets.xml&tx_dlf[page]=2"
  = Some "http://example.org/mets.xml&tx_dlf[page]=2".
Proof.
  apply (tx_dlf_takes_rest_of_line Sample.E _ "https://dfg-viewer.de/show/?"
           "://example.org/mets.xml&tx_dlf[page]=2").
  - vm_compute. reflexivity.
  - reflexivity.
  - discriminate.
  - reflexivity.
  - apply (no_group_no_param "set[mets]=" "&" 10%nat). vm_compute. reflexivity.
Defined.

(** * More on the image endpoint *)

Lemma is_number_parts s :
  is_number s = true →
  s ≠ EmptyString ∧ string_forall is_digit s = true ∧ no_char "," s = true.
Proof.
  intros [Hne Hs]%andb_true_iff. split; [by destruct s|].
  split; [exact Hs | by apply digits_no_comma].
Qed.

(** [int] of a number with a minus sign in front. *)
Lemma py_int_negative w :
  is_number w = true → py_int ("-" +:+ w) = Return (- decimal w).
Proof.
  intros Hw. destruct (is_number_parts w Hw) as (Hne & Hd & _).
  unfold py_int. change ("-" +:+ w) with (String "-" w).
  change (lstrip (String "-" w)) with (String "-" w).
  assert (Hr : rstrip (String "-" w) = String "-" w).
  { simpl. rewrite (rstrip_digits w Hd). by destruct w. }
  rewrite Hr.
  change (scan_digits AtStart 0 w) with (scan_digits AtStart 0 w).
  cbv beta iota.
  rewrite (scan_digits_digits AtStart 0 w Hd) by (by left). reflexivity.
Qed.

Section ImageMore.

Context (E : Externals).

(** X16. Of the answers of [get_image] only the 303 redirect has the
    CORS header: a 404, a 501 or a 500 is produced by an exception, which
    passes the decorator by, and has no header at all. *)
Theorem get_image_cors db image_id region size rotation quality fmt :
  let resp := serve_iiif
    (get_image E db image_id region size rotation quality fmt) in
  (resp_status resp = 303
   ∧ resp_headers resp !! "Access-Control-Allow-Origin" = Some "*")
  ∨ (resp_status resp ≠ 303 ∧ resp_headers resp = ∅).
Proof.
  intros resp. subst resp. unfold get_image.
  destruct (not_supported region rotation quality); [right; by split|].
  destruct (db !! image_id) as [img|]; [|right; by split].
  destruct (image_query E fmt size) as [query|e] eqn:Hq; simpl.
  - destruct (get_image_url E img query); simpl; [|right; by split].
    left. split; [reflexivity|]. apply lookup_insert_eq.
  - right. destruct (image_query_raises E _ _ _ Hq) as [-> | ->]; by split.
Qed.

(** X17. The sign of a size component is not checked: for a number [w],
    the size [-w,] gives the negative width [-w], and [,-h] the negative
    height. *)
Theorem negative_size_is_accepted fmt w :
  is_number w = true →
  image_query E fmt ("-" +:+ w +:+ ",")
  = Return (<[ "width" := VInt (- decimal w) ]>
              ({[ "format_" := mime_type E fmt ]} : Dict))
  ∧ image_query E fmt ("," +:+ "-" +:+ w)
    = Return (<[ "height" := VInt (- decimal w) ]>
                ({[ "format_" := mime_type E fmt ]} : Dict)).
Proof.
  intros Hw. destruct (is_number_parts w Hw) as (Hne & Hd & Hno).
  assert (Hp : "-" +:+ w ≠ EmptyString) by discriminate.
  assert (Hc : no_char "," ("-" +:+ w) = true) by exact Hno.
  split.
  - rewrite <- string_app_assoc.
    rewrite (image_query_width E fmt ("-" +:+ w) Hp Hc).
    by rewrite (py_int_negative w Hw).
  - rewrite (image_query_height E fmt ("-" +:+ w) Hp Hc).
    by rewrite (py_int_negative w Hw).
Qed.

(** X18. Sizes of a wrong shape: a number alone, without a comma, raises
    [ValueError], as do three numbers; a comma alone raises
    [IndexError]. *)
Theorem size_of_wrong_shape fmt :
  image_query E fmt "," = Raise IndexError
  ∧ (∀ w, is_number w = true → image_query E fmt w = Raise ValueError)
  ∧ (∀ a b c, is_number a = true → is_number b = true →
       is_number c = true →
       image_query E fmt (a +:+ "," +:+ b +:+ "," +:+ c) = Raise ValueError).
Proof.
  split; [reflexivity|].
  assert (Hfirst : ∀ w rest, is_number w = true →
    startswith "," (w +:+ rest) = false
    ∧ w +:+ rest ≠ "full" ∧ w +:+ rest ≠ "max").
  { intros w rest Hw. destruct (is_number_parts w Hw) as (Hne & Hd & _).
    destruct w as [|x w]; [done|]. rewrite string_app_cons.
    simpl in Hd. apply andb_true_iff in Hd as [Hx _].
    destruct (digit_not_special x Hx) as (_ & Hcomma & _).
    split.
    - rewrite startswith_char. apply bool_decide_eq_false_2.
      intros <-. discriminate.
    - split; intros [= -> _]; discriminate. }
  split.
  - intros w Hw. destruct (is_number_parts w Hw) as (Hne & Hd & Hno).
    destruct (Hfirst w EmptyString Hw) as (Hstart & Hfm).
    assert (Hw0 : w +:+ EmptyString = w).
    { clear. induction w as [|x w IH]; [reflexivity|].
      by rewrite string_app_cons, IH. }
    rewrite Hw0 in Hstart, Hfm.
    unfold image_query. rewrite (bool_decide_eq_true_2 _ Hfm).
    rewrite (endswith_no_char "," w Hno), Hstart.
    rewrite (split_no_sep "," w Hno).
    rewrite filter_cons_True by exact Hne. rewrite filter_nil. simpl.
    by rewrite (py_int_number w Hw).
  - intros a b c Ha Hb Hc.
    destruct (is_number_parts a Ha) as (Hane & Had & Hano).
    destruct (is_number_parts b Hb) as (Hbne & Hbd & Hbno).
    destruct (is_number_parts c Hc) as (Hcne & Hcd & Hcno).
    destruct (Hfirst a ("," +:+ b +:+ "," +:+ c) Ha) as (Hstart & Hfm).
    unfold image_query. rewrite (bool_decide_eq_true_2 _ Hfm), Hstart.
    assert (Hend : endswith "," (a +:+ "," +:+ b +:+ "," +:+ c) = false).
    { replace (a +:+ "," +:+ b +:+ "," +:+ c)
        with ((a +:+ "," +:+ b +:+ ",") +:+ c)
        by (by rewrite !string_app_assoc).
      rewrite (endswith_char_app "," _ c Hcne).
      by apply endswith_no_char. }
    rewrite Hend.
    change (a +:+ "," +:+ b +:+ "," +:+ c)
      with (a +:+ String "," (b +:+ String "," c)).
    rewrite (split_app "," a _ Hano), (split_app "," b _ Hbno).
    rewrite (split_no_sep "," c Hcno).
    rewrite filter_cons_True by exact Hane.
    rewrite filter_cons_True by exact Hbne.
    rewrite filter_cons_True by exact Hcne.
    rewrite filter_nil. simpl.
    rewrite (py_int_number a Ha). simpl.
    rewrite (py_int_number b Hb). simpl.
    by rewrite (py_int_number c Hc).
Qed.

(** X19. With supported parameters the image request and the info
    request agree on which images there are: [get_image] answers 404
    exactly when [get_image_info] does, and that is when the table has no
    image of that id. *)
Theorem image_not_found_agrees db image_id region size rotation quality fmt :
  not_supported region rotation quality = false →
  (resp_status (serve_iiif
     (get_image E db image_id region size rotation quality fmt)) = 404
   ↔ db !! image_id = None)
  ∧ (resp_status (serve_iiif (get_image_info db image_id)) = 404
     ↔ db !! image_id = None).
Proof.
  intros Hs. unfold get_image, get_image_info. rewrite Hs. split.
  - destruct (db !! image_id) as [img|]; [|by split].
    split; [|discriminate].
    destruct (image_query E fmt size) as [query|e] eqn:Hq; simpl.
    + destruct (get_image_url E img query); simpl; discriminate.
    + destruct (image_query_raises E _ _ _ Hq) as [-> | ->]; discriminate.
  - destruct (db !! image_id) as [img|]; simpl; [|by split].
    split; discriminate.
Qed.

End ImageMore.

Lemma negative_size_is_accepted_witness :
  image_query Sample.E "jpg" "-300,"
  = Return {[ "format_" := VStr "image/jpeg"; "width" := VInt (-300) ]}.
Proof.
  exact (proj1 (negative_size_is_accepted Sample.E "jpg" "300" eq_refl)).
Defined.

Lemma image_not_found_agrees_witness :
  resp_status (serve_iiif
    (get_image Sample.E Sample.images "nope" "full" "max" "0" "default" "jpg"))
  = 404.
Proof.
  apply (image_not_found_agrees Sample.E Sample.images "nope" "full" "max"
           "0" "default" "jpg" eq_refl).
  reflexivity.
Defined.

(** * Email subscriptions *)

Set Warnings "-clear-no-such-hyp".

Lemma jobs_key_not_recipients_key recipient job_id :
  jobs_key recipient ≠ recipients_key job_id.
Proof. unfold jobs_key, recipients_key. discriminate. Qed.

Lemma lookup_sadd r key members k :
  sadd r key members !! k
  = if decide (k = key) then Some (smembers r key ∪ list_to_set members)
    else r !! k.
Proof.
  unfold sadd. destruct (decide (k = key)) as [->|Hne].
  - apply lookup_insert_eq.
  - by apply lookup_insert_ne.
Qed.

Lemma smembers_sadd r key members k :
  smembers (sadd r key members) k
  = if decide (k = key) then smembers r key ∪ list_to_set members
    else smembers r k.
Proof. unfold smembers at 1. rewrite lookup_sadd. by destruct (decide _). Qed.

(** The loop over the job ids: each job's key gets the recipient, no
    other key is touched. *)
Lemma lookup_recipients_loop recipient job_ids b key :
  foldl (fun b job_id => sadd b (recipients_key job_id) [recipient])
        b job_ids !! key
  = if bool_decide (key ∈ recipients_key <$> job_ids)
    then Some (smembers b key ∪ {[ recipient ]})
    else b !! key.
Proof.
  revert b. induction job_ids as [|j js IH]; intros b.
  - rewrite bool_decide_eq_false_2; [reflexivity | apply not_elem_of_nil].
  - rewrite fmap_cons. cbn [foldl]. rewrite IH, smembers_sadd, lookup_sadd.
    destruct (decide (key = recipients_key j)) as [->|Hne].
    + rewrite (bool_decide_eq_true_2 (_ ∈ _ :: _)) by (by left).
      case_bool_decide; f_equal; set_solver.
    + case_bool_decide as Hin.
      * rewrite bool_decide_eq_true_2 by (by right). reflexivity.
      * rewrite bool_decide_eq_false_2; [reflexivity|].
        intros [?|?]%elem_of_cons; contradiction.
Qed.

Section Notify.

Context (validate_email : string → bool).

(** X20. For a valid address and at least one job id, the address's job
    set becomes its old members together with the given ids, that set is
    what the view returns, and every given job has the address among its
    recipients afterwards. *)
Theorem subscription_recorded r recipient job_ids :
  validate_email recipient = true →
  job_ids ≠ [] →
  let run := register_email_notification validate_email r recipient job_ids in
  run.1 = Return (Subscribed (smembers r (jobs_key recipient)
                              ∪ list_to_set job_ids))
  ∧ smembers run.2 (jobs_key recipient)
    = smembers r (jobs_key recipient) ∪ list_to_set job_ids
  ∧ ∀ job_id, job_id ∈ job_ids →
      recipient ∈ smembers run.2 (recipients_key job_id).
Proof.
  intros Hvalid Hne run. subst run. unfold register_email_notification.
  rewrite Hvalid. simpl. destruct job_ids as [|j js]; [done|].
  set (ids := j :: js). cbn [fst snd].
  assert (Hjobs : smembers
            (foldl (fun b job_id => sadd b (recipients_key job_id) [recipient])
                   (sadd r (jobs_key recipient) ids) ids) (jobs_key recipient)
          = smembers r (jobs_key recipient) ∪ list_to_set ids).
  { unfold smembers at 1. rewrite lookup_recipients_loop.
    rewrite bool_decide_eq_false_2.
    - rewrite lookup_sadd. by rewrite decide_True.
    - intros (x & Hx & _)%list_elem_of_fmap.
      by apply jobs_key_not_recipients_key in Hx. }
  split; [by rewrite Hjobs|]. split; [exact Hjobs|].
  intros job_id Hin. unfold smembers at 1. rewrite lookup_recipients_loop.
  rewrite bool_decide_eq_true_2 by (by apply list_elem_of_fmap_2).
  simpl. set_solver.
Qed.

(** X21. The view only ever adds members: no set loses a member; a key
    that is neither the address's job set nor the recipient set of one of
    the given jobs keeps exactly its members; and for an address that is
    not valid nothing is written at all. *)
Theorem subscription_only_adds r recipient job_ids :
  let run := register_email_notification validate_email r recipient job_ids in
  (∀ key, smembers r key ⊆ smembers run.2 key)
  ∧ (∀ key, key ≠ jobs_key recipient →
       (∀ job_id, job_id ∈ job_ids → key ≠ recipients_key job_id) →
       run.2 !! key = r !! key)
  ∧ (validate_email recipient = false →
       run = (Return InvalidEmail, r)).
Proof.
  intros run. subst run. unfold register_email_notification.
  destruct (validate_email recipient); simpl;
    [|by repeat split].
  destruct job_ids as [|j js]; [by repeat split|].
  set (ids := j :: js). cbn [fst snd].
  split; [|split; [|discriminate]].
  - intros key. unfold smembers at 2. rewrite lookup_recipients_loop.
    case_bool_decide; simpl; rewrite ?smembers_sadd.
    + destruct (decide _); set_solver.
    + fold (smembers (sadd r (jobs_key recipient) ids) key).
      rewrite smembers_sadd. destruct (decide _) as [->|]; set_solver.
  - intros key Hjobs Hrec. rewrite lookup_recipients_loop.
    rewrite bool_decide_eq_false_2.
    + rewrite lookup_sadd. by rewrite decide_False.
    + intros (x & -> & Hx)%list_elem_of_fmap. by apply (Hrec x).
Qed.

(** Redis after a run that wrote. *)
Lemma lookup_registered r recipient job_ids key :
  validate_email recipient = true →
  job_ids ≠ [] →
  (register_email_notification validate_email r recipient job_ids).2 !! key
  = if bool_decide (key ∈ recipients_key <$> job_ids)
    then Some (smembers r key ∪ {[ recipient ]})
    else if decide (key = jobs_key recipient)
    then Some (smembers r key ∪ list_to_set job_ids)
    else r !! key.
Proof.
  intros Hvalid Hne. unfold register_email_notification.
  rewrite Hvalid. simpl. destruct job_ids as [|j js]; [done|].
  set (ids := j :: js). cbn [snd].
  rewrite lookup_recipients_loop, smembers_sadd, lookup_sadd.
  case_bool_decide as Hin; [|by destruct (decide _) as [->|]].
  rewrite decide_False; [reflexivity|].
  intros ->. apply list_elem_of_fmap in Hin as (x & Hx & _).
  by apply jobs_key_not_recipients_key in Hx.
Qed.

(** The set returned is the address's job set as the run leaves it. *)
Lemma registered_answer r recipient job_ids :
  validate_email recipient = true →
  job_ids ≠ [] →
  let run := register_email_notification validate_email r recipient job_ids in
  run.1 = Return (Subscribed (smembers run.2 (jobs_key recipient))).
Proof.
  intros Hvalid Hne. unfold register_email_notification.
  rewrite Hvalid. simpl. by destruct job_ids.
Qed.

(** X22. Subscribing again with the same address and jobs changes
    nothing: the second run leaves Redis as the first one left it and
    returns the same set. *)
Theorem subscription_idempotent r recipient job_ids :
  validate_email recipient = true →
  job_ids ≠ [] →
  let first := register_email_notification validate_email r recipient job_ids in
  register_email_notification validate_email first.2 recipient job_ids = first.
Proof.
  intros Hvalid Hne first.
  assert (Hstate :
    (register_email_notification validate_email first.2 recipient job_ids).2
    = first.2).
  { apply map_eq. intros key.
    rewrite (lookup_registered first.2 _ _ key Hvalid Hne).
    unfold smembers. subst first.
    rewrite !(lookup_registered r _ _ _ Hvalid Hne).
    case_bool_decide as Hin; simpl.
    - f_equal. set_solver.
    - destruct (decide (key = jobs_key recipient)) as [->|Hk]; [|reflexivity].
      simpl. f_equal. set_solver. }
  pose proof (registered_answer first.2 recipient job_ids Hvalid Hne) as Hans2.
  pose proof (registered_answer r recipient job_ids Hvalid Hne) as Hans1.
  fold first in Hans1.
  destruct (register_email_notification validate_email first.2 recipient
              job_ids) as [ans2 r2].
  destruct first as [ans1 r1]. simpl in *. by subst.
Qed.

End Notify.

Lemma subscription_recorded_witness :
  let run := register_email_notification MoreSamples.valid_email
               MoreSamples.redis "a@example.org" ["job-2"] in
  run.1 = Return (Subscribed {[ "job-1"; "job-2" ]})
  ∧ "a@example.org" ∈ smembers run.2 (recipients_key "job-2").
Proof.
  intros run.
  destruct (subscription_recorded MoreSamples.valid_email MoreSamples.redis
              "a@example.org" ["job-2"] eq_refl) as (Hans & _ & Hrec);
    [discriminate|].
  fold run in Hans, Hrec. split.
  - rewrite Hans. do 2 f_equal; refine (bool_decide_unpack _ _);
      vm_compute; exact I.
  - apply Hrec. by left.
Defined.

Lemma subscription_idempotent_witness :
  let first := register_email_notification MoreSamples.valid_email
                 MoreSamples.redis "a@example.org" ["job-2"] in
  register_email_notification MoreSamples.valid_email first.2
    "a@example.org" ["job-2"] = first.
Proof.
  apply (subscription_idempotent MoreSamples.valid_email MoreSamples.redis
           "a@example.org" ["job-2"] eq_refl).
  discriminate.
Defined.

(** * The collection and the recent manifests *)

(** X23. [get_collection]: any collection but [index] is answered 404,
    whatever the page; for [index], the page [top] asks for no page
    number, and any other page id is read without its first character,
    whichever that is: one character followed by the number [d] asks for
    page [d], and a page id of one character or none raises
    [ValueError]. *)
Theorem collection_page_number collection_page server_name :
  let label := "All manifests available at " +:+ server_name in
  (∀ collection_id page_id, collection_id ≠ "index" →
     get_collection collection_page server_name collection_id page_id
     = abort 404)
  ∧ get_collection collection_page server_name "index" "top"
    = cors "*" (body ← collection_page None label "index";
                mret (jsonify body))
  ∧ (∀ c d, is_number d = true →
       get_collection collection_page server_name "index" (String c d)
       = cors "*" (body ← collection_page (Some (decimal d)) label "index";
                   mret (jsonify body)))
  ∧ get_collection collection_page server_name "index" EmptyString
    = Raise ValueError
  ∧ (∀ c, get_collection collection_page server_name "index"
            (String c EmptyString) = Raise ValueError).
Proof.
  intros label. split; [|split; [|split; [|split]]].
  - intros collection_id page_id Hne. unfold get_collection.
    by rewrite bool_decide_eq_true_2.
  - reflexivity.
  - intros c d Hd. unfold get_collection.
    rewrite (bool_decide_eq_false_2 ("index" ≠ "index")) by (by intros H).
    rewrite bool_decide_eq_false_2.
    2: { intros [= -> ->]. discriminate. }
    simpl string_tail. rewrite (py_int_number d Hd). reflexivity.
  - reflexivity.
  - intros c. unfold get_collection.
    rewrite (bool_decide_eq_false_2 ("index" ≠ "index")) by (by intros H).
    rewrite bool_decide_eq_false_2 by discriminate. reflexivity.
Qed.

Lemma mapM_Raise {A B} (f : A → Outcome B) (l : list A) x e :
  x ∈ l → f x = Raise e → ∃ e', mapM f l = Raise e'.
Proof.
  induction l as [|a l IH]; intros Hx Hfx; [by apply elem_of_nil in Hx|].
  simpl. destruct (f a) as [b|e0] eqn:Ha; simpl; [|by eexists].
  apply elem_of_cons in Hx as [-> | Hx]; [congruence|].
  destruct (IH Hx Hfx) as [e' ->]. by eexists.
Qed.

Section Recent.

Context (paginate : Z → Pagination) (manifest_url : string → string).

(** X24. The page the view asks [paginate] for is the [page] argument
    read by [int], and 1 when that is less than 1; without the argument
    it is page 1; an argument that [int] refuses raises [ValueError]
    before anything is asked. *)
Theorem recent_page_is_clamped page :
  (∀ n, py_int (default "1" page) = Return n →
     api_get_recent_manifests paginate manifest_url page
     = api_get_recent_manifests (fun _ => paginate (Z.max 1 n))
         manifest_url page)
  ∧ api_get_recent_manifests paginate manifest_url None
    = api_get_recent_manifests (fun _ => paginate 1) manifest_url None
  ∧ (∀ e, py_int (default "1" page) = Raise e →
       api_get_recent_manifests paginate manifest_url page
       = Raise ValueError).
Proof.
  split; [|split].
  - intros n Hn. unfold api_get_recent_manifests. rewrite Hn. simpl.
    replace (if n <? 1 then 1 else n) with (Z.max 1 n); [reflexivity|].
    destruct (Z.ltb_spec n 1); lia.
  - reflexivity.
  - intros e He. unfold api_get_recent_manifests. rewrite He. simpl.
    f_equal. unfold py_int in He.
    destruct (rstrip (lstrip (default "1" page)))
      as [|[[] [] [] [] [] [] [] []] r];
      destruct (scan_digits _ _ _); congruence.
Qed.

(** X25. One manifest without a first canvas fails the whole page: an
    entry whose manifest has an empty [sequences] list raises
    [IndexError], and when the entry of any item of the page raises, the
    view raises. *)
Theorem recent_fails_on_one_manifest page n m :
  py_int (default "1" page) = Return n →
  m ∈ pg_items (paginate (Z.max 1 n)) →
  (∃ fields, m_manifest m = JObj fields
             ∧ fields !! "sequences" = Some (JArr [])) →
  recent_entry manifest_url m = Raise IndexError
  ∧ ∃ e, api_get_recent_manifests paginate manifest_url page = Raise e.
Proof.
  intros Hn Hm (fields & Hmf & Hseq).
  assert (Hentry : recent_entry manifest_url m = Raise IndexError).
  { unfold recent_entry. rewrite Hmf. simpl. rewrite Hseq. reflexivity. }
  split; [exact Hentry|].
  unfold api_get_recent_manifests. rewrite Hn. simpl.
  replace (if n <? 1 then 1 else n) with (Z.max 1 n)
    by (destruct (Z.ltb_spec n 1); lia).
  destruct (mapM_Raise (recent_entry manifest_url) _ m _ Hm Hentry)
    as [e ->].
  by exists e.
Qed.

(** X26. When every item of the page has its entry, the view lists one
    entry per item, in the order of the page, each under the item's id,
    and [next_page] is the next page's number when there is a next page
    and null otherwise. *)
Theorem recent_lists_every_item page n :
  py_int (default "1" page) = Return n →
  let pagination := paginate (Z.max 1 n) in
  (∀ m, m ∈ pg_items pagination →
     ∃ d, recent_entry manifest_url m = Return d) →
  ∃ body,
    api_get_recent_manifests paginate manifest_url page = Return body
    ∧ next_page body = (if pg_has_next pagination
                        then pg_next_num pagination else None)
    ∧ length (manifests body) = length (pg_items pagination)
    ∧ ∀ i m, pg_items pagination !! i = Some m →
        ∃ d, manifests body !! i = Some d
          ∧ d !! "id" = Some (JStr (m_id m))
          ∧ d !! "metsurl" = Some (JStr (m_origin m)).
Proof.
  intros Hn pagination Hall.
  destruct (mapM_Return_lookup (recent_entry manifest_url)
              (pg_items pagination) Hall) as (entries & Hmap & Hlen & Hlook).
  unfold api_get_recent_manifests. rewrite Hn. simpl.
  replace (if n <? 1 then 1 else n) with (Z.max 1 n)
    by (destruct (Z.ltb_spec n 1); lia).
  fold pagination. rewrite Hmap. simpl.
  eexists. split; [reflexivity|]. simpl.
  split; [reflexivity|]. split; [exact Hlen|].
  intros i m Hi. destruct (Hlook i m Hi) as (d & Hd & Hentry).
  exists d. split; [exact Hd|].
  unfold recent_entry in Hentry.
  repeat match type of Hentry with
         | context [mbind _ ?o] =>
             destruct o; simpl in Hentry; [|discriminate]
         end.
  injection Hentry as <-. split; reflexivity.
Qed.

End Recent.

Lemma recent_fails_on_one_manifest_witness :
  ∃ e, api_get_recent_manifests MoreSamples.paginate MoreSamples.manifest_url
         (Some "2") = Raise e.
Proof.
  apply (recent_fails_on_one_manifest MoreSamples.paginate
           MoreSamples.manifest_url (Some "2") 2 MoreSamples.empty_manifest
           eq_refl).
  - right. by left.
  - eexists. split; reflexivity.
Defined.

Lemma recent_lists_every_item_witness :
  ∃ body,
    api_get_recent_manifests MoreSamples.paginate MoreSamples.manifest_url
      (Some "0") = Return body
    ∧ next_page body = Some 2
    ∧ length (manifests body) = 1%nat.
Proof.
  destruct (recent_lists_every_item MoreSamples.paginate
              MoreSamples.manifest_url (Some "0") 0 eq_refl)
    as (body & Hbody & Hnext & Hlen & _).
  - intros m Hm. apply elem_of_cons in Hm as [-> | Hm];
      [|by apply elem_of_nil in Hm].
    eexists. vm_compute. reflexivity.
  - exists body. split; [exact Hbody|]. split; [exact Hnext | exact Hlen].
Defined.

(** * Server-sent events *)

(** X27. An encoded event is the single line [data: ...] followed by an
    empty line, whatever the data, and the empty string when the data is
    empty: [event] and [id] share the key [None] in [desc_map] and are
    never written. *)
Theorem sse_encode_data data :
  sse_encode data
  = if bool_decide (data = EmptyString) then EmptyString
    else "data: " +:+ data +:+ nl +:+ nl.
Proof. destruct data as [|c data]; reflexivity. Qed.

(** * The handler, again *)

(** X28. The handler raises exactly when the exception has no argument,
    and then [IndexError]; when it returns, the job has kept its id,
    status, result, traceback and arguments, and of its metadata nothing
    but [type] and [message] is left. *)
Theorem exception_handler_outcome job exc :
  (_exception_handler job exc = Raise IndexError ∧ exc_args exc = [])
  ∨ (∃ job', _exception_handler job exc = Return job'
       ∧ exc_args exc ≠ []
       ∧ job_id job' = job_id job
       ∧ get_status job' = get_status job
       ∧ job_result job' = job_result job
       ∧ job_exc_info job' = job_exc_info job
       ∧ h_args (job_hash job') = h_args (job_hash job)
       ∧ dom (job_meta job') = {[ "type"; "message" ]}).
Proof.
  unfold _exception_handler. destruct (exc_args exc) as [|a rest]; simpl.
  - left. by split.
  - right. eexists. split; [reflexivity|]. split; [discriminate|].
    repeat split.
Qed.

(** * Paragraphs *)

Lemma escape_app a b : escape (a +:+ b) = escape a +:+ escape b.
Proof.
  induction a as [|c a IH]; [reflexivity|].
  rewrite string_app_cons. simpl. by rewrite IH, string_app_assoc.
Qed.

Lemma escape_char_break c : is_break c = true → escape_char c = String c EmptyString.
Proof.
  unfold is_break. intros [Hc | Hc]%orb_true_iff;
    apply Ascii.eqb_eq in Hc; subst; reflexivity.
Qed.

Lemma escape_char_plain c :
  is_break c = false →
  ∃ x e, escape_char c = String x e ∧ is_break x = false ∧ no_break e = true.
Proof.
  intros Hc. unfold escape_char.
  repeat match goal with
         | |- context [Ascii.eqb c ?k] =>
             destruct (Ascii.eqb_spec c k); [subst; by eexists _, _|]
         end.
  exists c, EmptyString. by repeat split.
Qed.

Lemma escape_all_breaks run : all_breaks run = true → escape run = run.
Proof.
  unfold all_breaks. induction run as [|c run IH]; [reflexivity|].
  simpl. intros [Hc Hrun]%andb_true_iff.
  by rewrite (escape_char_break c Hc), (IH Hrun).
Qed.

Lemma no_break_app a b :
  no_break (a +:+ b) = no_break a && no_break b.
Proof.
  unfold no_break. induction a as [|c a IH]; [reflexivity|].
  rewrite string_app_cons. simpl. by rewrite IH, andb_assoc.
Qed.

Lemma escape_no_break a : no_break a = true → no_break (escape a) = true.
Proof.
  induction a as [|c a IH]; [reflexivity|].
  unfold no_break at 1. simpl. intros [Hc Ha]%andb_true_iff.
  apply negb_true_iff in Hc.
  destruct (escape_char_plain c Hc) as (x & e & -> & Hx & He).
  rewrite no_break_app. rewrite (IH Ha), andb_true_r.
  unfold no_break. simpl. rewrite Hx. exact He.
Qed.

Lemma escape_starts_plain b : starts_plain b = true → starts_plain (escape b) = true.
Proof.
  destruct b as [|c b]; [reflexivity|]. simpl. intros Hc%negb_true_iff.
  destruct (escape_char_plain c Hc) as (x & e & -> & Hx & _).
  rewrite string_app_cons. simpl. by rewrite Hx.
Qed.

Lemma take_while_breaks run y :
  all_breaks run = true → starts_plain y = true →
  take_while is_break (run +:+ y) = run.
Proof.
  unfold all_breaks. induction run as [|c run IH]; intros Hrun Hy.
  - rewrite string_app_nil. destruct y as [|d y]; [reflexivity|].
    simpl in *. apply negb_true_iff in Hy. by rewrite Hy.
  - rewrite string_app_cons. simpl in *.
    apply andb_true_iff in Hrun as [Hc Hrun]. by rewrite Hc, (IH Hrun Hy).
Qed.

Lemma paragraph_split_skip r y :
  paragraph_split (String.length r) (r +:+ y) = paragraph_split 0 y.
Proof.
  induction r as [|c r IH]; [reflexivity|].
  rewrite string_app_cons. simpl. exact IH.
Qed.

(** A run of two or more CR and LF characters ends a piece. *)
Lemma paragraph_split_run x run y :
  no_break x = true → all_breaks run = true →
  (2 ≤ String.length run)%nat → starts_plain y = true →
  paragraph_split 0 (x +:+ run +:+ y) = x :: paragraph_split 0 y.
Proof.
  intros Hx Hrun Hlen Hy. unfold no_break in Hx.
  induction x as [|c x IH].
  - rewrite string_app_nil. destruct run as [|c run]; [simpl in Hlen; lia|].
    rewrite string_app_cons.
    cbn [paragraph_split]. rewrite <- string_app_cons.
    rewrite (take_while_breaks _ y Hrun Hy).
    rewrite (proj2 (Nat.leb_le _ _) Hlen).
    simpl String.length. rewrite Nat.sub_succ, Nat.sub_0_r.
    f_equal. apply paragraph_split_skip.
  - simpl in Hx. apply andb_true_iff in Hx as [Hc Hx].
    apply negb_true_iff in Hc.
    rewrite string_app_cons. cbn [paragraph_split take_while].
    rewrite Hc. simpl String.length. cbn [Nat.leb].
    rewrite (IH Hx). reflexivity.
Qed.

Lemma paragraph_split_lone s :
  lone_breaks s = true → paragraph_split 0 s = [s].
Proof.
  induction s as [|c s IH]; [reflexivity|].
  cbn [lone_breaks]. intros [Hc Hs]%andb_true_iff.
  apply negb_true_iff in Hc.
  cbn [paragraph_split take_while].
  assert (Hrun : (2 <=? String.length
                    (if is_break c then String c (take_while is_break s)
                     else EmptyString))%nat = false).
  { destruct (is_break c); [|reflexivity]. simpl in Hc.
    apply negb_false_iff in Hc.
    destruct s as [|d s]; [reflexivity|]. simpl in Hc.
    apply negb_true_iff in Hc. simpl. by rewrite Hc. }
  rewrite Hrun, (IH Hs). reflexivity.
Qed.

Lemma lone_breaks_app_plain e t :
  e ≠ EmptyString → no_break e = true →
  lone_breaks (e +:+ t) = lone_breaks t.
Proof.
  unfold no_break. induction e as [|c e IH]; [done|]. intros _ He.
  simpl in He. apply andb_true_iff in He as [Hc He].
  apply negb_true_iff in Hc.
  rewrite string_app_cons. cbn [lone_breaks]. rewrite Hc. simpl.
  destruct e as [|d e]; [by rewrite string_app_nil|].
  by apply IH.
Qed.

Lemma escape_starts_plain_eq s : starts_plain (escape s) = starts_plain s.
Proof.
  destruct s as [|c s]; [reflexivity|]. simpl.
  destruct (is_break c) eqn:Hc.
  - rewrite (escape_char_break c Hc), string_app_cons. simpl. by rewrite Hc.
  - destruct (escape_char_plain c Hc) as (x & e & -> & Hx & _).
    rewrite string_app_cons. simpl. by rewrite Hx.
Qed.

Lemma escape_lone_breaks s : lone_breaks (escape s) = lone_breaks s.
Proof.
  induction s as [|c s IH]; [reflexivity|].
  simpl escape. cbn [lone_breaks]. destruct (is_break c) eqn:Hc.
  - rewrite (escape_char_break c Hc), string_app_cons, string_app_nil.
    cbn [lone_breaks]. by rewrite Hc, escape_starts_plain_eq, IH.
  - destruct (escape_char_plain c Hc) as (x & e & Hesc & Hx & He).
    rewrite lone_breaks_app_plain, IH; [reflexivity | by rewrite Hesc|].
    rewrite Hesc. unfold no_break. simpl. by rewrite Hx.
Qed.

Lemma paragraph_split_cons s : ∃ p ps, paragraph_split 0 s = p :: ps.
Proof.
  destruct s as [|c s]; [by eexists _, _|]. cbn [paragraph_split].
  destruct (2 <=? _)%nat; [by eexists _, _|].
  destruct (paragraph_split 0 s); by eexists _, _.
Qed.

(** X29. A text in which no two neighbours are both CR or LF characters
    is one paragraph: its escaped form between [<p>] and [</p>]. *)
Theorem nl2br_one_paragraph value :
  lone_breaks value = true →
  nl2br value = "<p>" +:+ escape value +:+ "</p>".
Proof.
  intros Hv. unfold nl2br.
  rewrite paragraph_split_lone by (by rewrite escape_lone_breaks).
  reflexivity.
Qed.

(** X30. A run of two or more CR and LF characters after a first
    paragraph without such characters ends it, and the rest of the text
    is formatted on its own; a lone CR LF pair is such a run. *)
Theorem nl2br_paragraph_break a run b :
  no_break a = true → all_breaks run = true →
  (2 ≤ String.length run)%nat → starts_plain b = true →
  nl2br (a +:+ run +:+ b)
  = "<p>" +:+ escape a +:+ "</p>" +:+ nl +:+ nl +:+ nl2br b.
Proof.
  intros Ha Hrun Hlen Hb. unfold nl2br.
  rewrite !escape_app, (escape_all_breaks run Hrun).
  rewrite (paragraph_split_run (escape a) run (escape b));
    [| by apply escape_no_break | exact Hrun | exact Hlen
     | by apply escape_starts_plain].
  destruct (paragraph_split_cons (escape b)) as (p & ps & ->).
  cbn [map join]. rewrite !string_app_assoc. reflexivity.
Qed.

Lemma nl2br_one_paragraph_witness :
  nl2br ("a<b" +:+ nl +:+ "c") = "<p>a&lt;b" +:+ nl +:+ "c</p>".
Proof. apply (nl2br_one_paragraph ("a<b" +:+ nl +:+ "c")). reflexivity. Defined.

Lemma nl2br_paragraph_break_witness :
  nl2br ("one" +:+ String carriage_return nl +:+ "two")
  = "<p>one</p>" +:+ nl +:+ nl +:+ "<p>two</p>".
Proof.
  apply (nl2br_paragraph_break "one" (String carriage_return nl) "two");
    [reflexivity | reflexivity | simpl; lia | reflexivity].
Defined.
